(** * Tab Groups Manager: the classification engine of the background service

    A shallow embedding of [class TabGroupManager] and of the message
    listener of the background service, with the properties of its
    template compiler, its classifier, its two caches and its settings
    persistence.

    JavaScript strings are modelled as [string] (hostnames, templates and
    regular-expression sources of this program are ASCII), [Map<string,
    string>] as [gmap string string], arrays as lists.  The regular
    expression engine and the URL parser belong to the host platform: the
    development is parametric in them ([Platform]) and one concrete
    instance ([Host.platform]) is given for the sub-language of regular
    expressions that [createAutoPattern] emits.

    The methods are state transformers over a [World]: the fields of the
    manager, [chrome.storage.local], and the record of the calls into the
    regular expression engine and of the requests to group a tab.  Each
    method, listener and storage callback runs as one step: a promise
    that a method awaits is taken to settle before the next step starts,
    and a write to the storage is taken to land at once.  Calls to
    [LogManager.log] are not modelled. *)

From Stdlib Require Import String Ascii ZArith List Bool Lia Eqdep_dec.
From stdpp Require Import base option list gmap strings.

Import ListNotations.
Local Open Scope string_scope.
Local Open Scope Z_scope.

(* ===================================================================== *)
(** * JavaScript string operations used by the service *)
(* ===================================================================== *)

Module JS.

(** [s.startsWith(p)] *)
Definition startsWith (s p : string) : bool := String.prefix p s.

(** [s.indexOf(p)]: the first position at which [p] occurs in [s],
    [-1] when there is none. *)
Fixpoint indexOf_from (i : Z) (s p : string) : Z :=
  if String.prefix p s then i
  else match s with
       | EmptyString => -1
       | String _ s' => indexOf_from (i + 1) s' p
       end.

Definition indexOf (s p : string) : Z := indexOf_from 0 s p.

(** [s.includes(p)] *)
Fixpoint includes (s p : string) : bool :=
  if String.prefix p s then true
  else match s with
       | EmptyString => false
       | String _ s' => includes s' p
       end.

(** [s.replace(/c/g, rep)] for a one-character pattern. *)
Fixpoint replaceChar (c : ascii) (rep : string) (s : string) : string :=
  match s with
  | EmptyString => EmptyString
  | String a s' =>
      if Ascii.eqb a c then String.append rep (replaceChar c rep s')
      else String a (replaceChar c rep s')
  end.

(** [s.replace(/pat/g, rep)] for a literal, non-empty [pat]: leftmost
    occurrences, not overlapping.  [skip] counts the characters of a
    replaced occurrence that are still to be dropped. *)
Fixpoint replaceAll_from (skip : nat) (pat rep s : string) : string :=
  match s with
  | EmptyString => EmptyString
  | String a s' =>
      match skip with
      | S k => replaceAll_from k pat rep s'
      | O =>
          if String.prefix pat s
          then String.append rep
                 (replaceAll_from (Nat.pred (String.length pat)) pat rep s')
          else String a (replaceAll_from O pat rep s')
      end
  end.

Definition replaceAll (pat rep s : string) : string :=
  replaceAll_from O pat rep s.

(** [c.toUpperCase()] on one ASCII character. *)
Definition toUpperCaseChar (c : ascii) : ascii :=
  let n := nat_of_ascii c in
  if (Nat.leb 97 n && Nat.leb n 122)%bool then ascii_of_nat (n - 32) else c.

(** [name.charAt(0).toUpperCase() + name.slice(1)] *)
Definition capitalize (name : string) : string :=
  match name with
  | EmptyString => EmptyString
  | String c rest => String (toUpperCaseChar c) rest
  end.

(** Truthiness of a string value: the empty string is falsy. *)
Definition truthy (s : string) : bool :=
  match s with EmptyString => false | String _ _ => true end.

End JS.

(* ===================================================================== *)
(** * The host platform *)
(* ===================================================================== *)

(** What the service uses of the JavaScript engine and of the browser:
    regular expressions and URL parsing.  An operation that throws in
    JavaScript returns [None]. *)
Class Platform := {
  RegExp : Type;
  (** [new RegExp(src)]; [None] when it throws a [SyntaxError] *)
  RegExp_new : string -> option RegExp;
  (** [r.source] *)
  RegExp_source : RegExp -> string;
  (** [r.test(s)] *)
  RegExp_test : RegExp -> string -> bool;
  (** [s.match(r)] for a regular expression without the [g] flag: [None]
      is [null], otherwise the match array, whose entry 0 is the matched
      text and whose entry [i] is the [i]-th capture ([None] for a group
      that did not take part, [undefined]). *)
  String_match : string -> RegExp -> option (list (option string));
  (** [new URL(url).hostname]; [None] when the constructor throws *)
  URL_hostname : string -> option string
}.

(** [chrome.tabGroups.ColorEnum] *)
Definition ColorEnum := string.

(** [chrome.tabGroups.TAB_GROUP_ID_NONE] *)
Definition TAB_GROUP_ID_NONE : Z := -1.

(** The fields of [chrome.tabs.Tab] that the service reads; an absent
    [id] or [url] is [None]. *)
Record Tab := {
  tab_id : option Z;
  tab_url : option string;
  tab_groupId : Z;
  tab_active : bool
}.

Record StoredPattern := {
  patternStr : string;
  stored_groupName : string;
  stored_color : option ColorEnum
}.

(** The object that [saveSettings] writes for one auto-pattern. *)
Record StoredAutoPattern := {
  stored_template : string;
  regexStr : string;
  stored_namePosition : nat
}.

(** The three keys of [chrome.storage.local] that the service uses; an
    absent key is [None]. *)
Record Storage := {
  stored_domainPatterns : option (list StoredPattern);
  stored_enableAutoPatterns : option bool;
  stored_autoPatterns : option (list StoredAutoPattern)
}.

Definition empty_storage : Storage :=
  {| stored_domainPatterns := None;
     stored_enableAutoPatterns := None;
     stored_autoPatterns := None |}.

Section Service.
Context `{Platform}.

Record DomainPattern := {
  pattern : RegExp;
  groupName : string;
  color : option ColorEnum
}.

Record AutoPattern := {
  template : string;
  regex : RegExp;
  namePosition : nat
}.

(** The private fields of [class TabGroupManager]. *)
Record TabGroupManager := {
  domainPatterns : list DomainPattern;
  enableAutoPatterns : bool;
  autoPatterns : list AutoPattern;
  autoPatternCache : gmap string string;
  processedUrls : gmap string string
}.

(** What the service does that is visible outside it: the calls into the
    regular expression engine and the requests to put a tab into a group.
    [addTabToGroup] is the boundary to the browser's tab groups: its
    [chrome.*] calls are not modelled further. *)
Inductive Event :=
| RegExpTest (r : RegExp) (domain : string)
| StringMatch (domain : string) (r : RegExp)
| AddTabToGroup (tabId : Z) (name : string) (c : option ColorEnum).

(** The manager object, [chrome.storage.local] and the events so far
    (oldest first). *)
Record World := {
  this : TabGroupManager;
  local : Storage;
  events : list Event
}.

Definition with_this (m : TabGroupManager) (w : World) : World :=
  {| this := m; local := local w; events := events w |}.

Definition with_local (s : Storage) (w : World) : World :=
  {| this := this w; local := s; events := events w |}.

Definition set_domainPatterns (v : list DomainPattern) (m : TabGroupManager) :=
  {| domainPatterns := v; enableAutoPatterns := enableAutoPatterns m;
     autoPatterns := autoPatterns m; autoPatternCache := autoPatternCache m;
     processedUrls := processedUrls m |}.

Definition set_enableAutoPatterns (v : bool) (m : TabGroupManager) :=
  {| domainPatterns := domainPatterns m; enableAutoPatterns := v;
     autoPatterns := autoPatterns m; autoPatternCache := autoPatternCache m;
     processedUrls := processedUrls m |}.

Definition set_autoPatterns (v : list AutoPattern) (m : TabGroupManager) :=
  {| domainPatterns := domainPatterns m; enableAutoPatterns := enableAutoPatterns m;
     autoPatterns := v; autoPatternCache := autoPatternCache m;
     processedUrls := processedUrls m |}.

Definition set_autoPatternCache (v : gmap string string) (m : TabGroupManager) :=
  {| domainPatterns := domainPatterns m; enableAutoPatterns := enableAutoPatterns m;
     autoPatterns := autoPatterns m; autoPatternCache := v;
     processedUrls := processedUrls m |}.

Definition set_processedUrls (v : gmap string string) (m : TabGroupManager) :=
  {| domainPatterns := domainPatterns m; enableAutoPatterns := enableAutoPatterns m;
     autoPatterns := autoPatterns m; autoPatternCache := autoPatternCache m;
     processedUrls := v |}.

(** ** The monad of the methods: state passing over [World] *)

Definition M (A : Type) : Type := World -> A * World.

Definition ret {A} (a : A) : M A := fun w => (a, w).

Definition bind {A B} (c : M A) (k : A -> M B) : M B :=
  fun w => let (a, w') := c w in k a w'.

Definition get : M TabGroupManager := fun w => (this w, w).

Definition modify (f : TabGroupManager -> TabGroupManager) : M unit :=
  fun w => (tt, with_this (f (this w)) w).

Definition emit (e : Event) : M unit :=
  fun w => (tt, {| this := this w; local := local w; events := events w ++ [e] |}).

End Service.

Declare Scope service_scope.
Delimit Scope service_scope with service.
Notation "x <- c ;; k" := (bind c (fun x => k))
  (at level 100, c at next level, right associativity) : service_scope.
Notation "c ;; k" := (bind c (fun _ => k))
  (at level 100, right associativity) : service_scope.

(* ===================================================================== *)
(** * The methods of [TabGroupManager] *)
(* ===================================================================== *)

Section Methods.
Context `{Platform}.
Local Open Scope service_scope.

(** [pattern.test(domain)] and [domain.match(regex)], recorded. *)
Definition test (r : RegExp) (domain : string) : M bool :=
  emit (RegExpTest r domain) ;; ret (RegExp_test r domain).

Definition match_ (domain : string) (r : RegExp)
  : M (option (list (option string))) :=
  emit (StringMatch domain r) ;; ret (String_match domain r).

(** ** createAutoPattern

    [None] when the method throws: the template has no [:name], or the
    [RegExp] constructor rejects the text built from it. *)
Definition createAutoPattern (template : string) : option AutoPattern :=
  let nameIdx := JS.indexOf template ":name" in
  if nameIdx =? -1 then None
  else
    let regexStr :=
      JS.replaceAll ":name" "([^.]+)"
        (JS.replaceChar "*" "[^.]+"
           (JS.replaceChar "." "\." template)) in
    match RegExp_new ("^" ++ regexStr ++ "$") with
    | None => None
    | Some regex =>
        let namePosition := 1%nat in
        Some {| template := template; regex := regex;
                namePosition := namePosition |}
    end.

(** ** matchAutoPattern *)
Fixpoint matchAutoPattern_for (patterns : list AutoPattern) (domain : string)
  : M (option string) :=
  match patterns with
  | [] => ret None
  | pattern :: rest =>
      m <- match_ domain (regex pattern) ;;
      match m with
      | Some arr =>
          match arr !! namePosition pattern with
          | Some (Some name) =>
              if JS.truthy name then ret (Some (JS.capitalize name))
              else matchAutoPattern_for rest domain
          | _ => matchAutoPattern_for rest domain
          end
      | None => matchAutoPattern_for rest domain
      end
  end.

Definition matchAutoPattern (domain : string) : M (option string) :=
  m <- get ;; matchAutoPattern_for (autoPatterns m) domain.

(** ** addTabToGroup: one request to the browser's tab groups *)
Definition addTabToGroup (tabId : Z) (name : string) (c : option ColorEnum)
  : M unit :=
  emit (AddTabToGroup tabId name c).

(** [this.domainPatterns.find(p => p.pattern.test(domain))] *)
Fixpoint find_pattern (patterns : list DomainPattern) (domain : string)
  : M (option DomainPattern) :=
  match patterns with
  | [] => ret None
  | p :: rest =>
      b <- test (pattern p) domain ;;
      if b then ret (Some p) else find_pattern rest domain
  end.

(** ** handleTabUpdate *)

(** The loop over the manual patterns; [true] when it returned from the
    method. *)
Fixpoint handleTabUpdate_for (tabId : Z) (url domain : string)
    (patterns : list DomainPattern) : M bool :=
  match patterns with
  | [] => ret false
  | p :: rest =>
      b <- test (pattern p) domain ;;
      if b then
        addTabToGroup tabId (groupName p) (color p) ;;
        modify (fun m =>
          set_processedUrls (<[url := groupName p]> (processedUrls m)) m) ;;
        ret true
      else handleTabUpdate_for tabId url domain rest
  end.

Definition handleTabUpdate (tab : Tab) : M unit :=
  if negb (tab_groupId tab =? TAB_GROUP_ID_NONE) then ret tt
  else
    match tab_url tab, tab_id tab with
    | Some url, Some id =>
        if negb (JS.truthy url) || (id =? 0) then ret tt
        else if JS.startsWith url "chrome://" || JS.startsWith url "brave://"
        then ret tt
        else
          m <- get ;;
          match processedUrls m !! url with
          | Some cachedGroupName =>
              if JS.truthy cachedGroupName
              then addTabToGroup id cachedGroupName None
              else ret tt
          | None =>
              match URL_hostname url with
              | None => ret tt
              | Some domain =>
                  returned <- handleTabUpdate_for id url domain (domainPatterns m) ;;
                  if returned then ret tt
                  else
                    m <- get ;;
                    returned <-
                      (if enableAutoPatterns m then
                         g <- matchAutoPattern domain ;;
                         match g with
                         | Some name =>
                             if JS.truthy name then
                               modify (fun m =>
                                 set_autoPatternCache
                                   (<[domain := name]> (autoPatternCache m)) m) ;;
                               modify (fun m =>
                                 set_processedUrls
                                   (<[url := name]> (processedUrls m)) m) ;;
                               addTabToGroup id name None ;;
                               ret true
                             else ret false
                         | None => ret false
                         end
                       else ret false) ;;
                    if returned then ret tt
                    else
                      modify (fun m =>
                        set_processedUrls (<[url := ""]> (processedUrls m)) m)
              end
          end
    | _, _ => ret tt
    end.

(** ** setupEventListeners

    The three listeners on tab events.  [changedUrl] is [changeInfo.url];
    the tab handed to the third one is the answer of [chrome.tabs.get]. *)
Definition onCreated (tab : Tab) : M unit :=
  if tab_groupId tab =? TAB_GROUP_ID_NONE then handleTabUpdate tab else ret tt.

Definition onUpdated (changedUrl : option string) (tab : Tab) : M unit :=
  match changedUrl with
  | Some url =>
      if JS.truthy url && (tab_groupId tab =? TAB_GROUP_ID_NONE) then
        if tab_active tab then handleTabUpdate tab else ret tt
      else ret tt
  | None => ret tt
  end.

Definition onActivated (tab : Tab) : M unit :=
  if tab_groupId tab =? TAB_GROUP_ID_NONE then handleTabUpdate tab else ret tt.

(** ** clearUrlCache *)
Definition clearUrlCache : M unit :=
  modify (set_processedUrls ∅).

(** ** savePatterns and saveSettings *)
Definition savePatterns : M unit :=
  fun w =>
    let patternsToSave :=
      map (fun p => {| patternStr := RegExp_source (pattern p);
                       stored_groupName := groupName p;
                       stored_color := color p |})
          (domainPatterns (this w)) in
    (tt, with_local
           {| stored_domainPatterns := Some patternsToSave;
              stored_enableAutoPatterns := stored_enableAutoPatterns (local w);
              stored_autoPatterns := stored_autoPatterns (local w) |} w).

Definition saveSettings : M unit :=
  fun w =>
    let autoPatternsToSave :=
      map (fun p => {| stored_template := template p;
                       regexStr := RegExp_source (regex p);
                       stored_namePosition := namePosition p |})
          (autoPatterns (this w)) in
    (tt, with_local
           {| stored_domainPatterns := stored_domainPatterns (local w);
              stored_enableAutoPatterns := Some (enableAutoPatterns (this w));
              stored_autoPatterns := Some autoPatternsToSave |} w).

(** ** addPattern

    The [SyntaxError] of [new RegExp] is caught inside the method and only
    logged.  The method ends by starting [applyPatternsToExistingTabs],
    which it does not await: that fan-out of [handleTabUpdate] calls is
    not part of this step. *)
Definition addPattern (patternStr : string) (name : string)
    (c : option ColorEnum) : M unit :=
  match RegExp_new patternStr with
  | Some pattern =>
      modify (fun m =>
        set_domainPatterns
          (domainPatterns m ++
             [{| pattern := pattern; groupName := name; color := c |}]) m) ;;
      savePatterns ;;
      clearUrlCache
  | None => ret tt
  end.

(** ** addAutoPattern

    After a successful addition the method starts
    [applyAutoPatternToExistingTabs] when auto-patterns are enabled, and
    does not await it: that is a step of its own. *)
Definition addAutoPattern (template_ : string) : M bool :=
  if negb (JS.includes template_ ":name") then ret false
  else
    m <- get ;;
    if existsb (fun p => String.eqb (template p) template_) (autoPatterns m)
    then ret false
    else
      match createAutoPattern template_ with
      | Some autoPattern =>
          modify (fun m => set_autoPatterns (autoPatterns m ++ [autoPattern]) m) ;;
          saveSettings ;;
          clearUrlCache ;;
          ret true
      | None => ret false
      end.

(** ** removeAutoPattern *)
Definition removeAutoPattern (template_ : string) : M bool :=
  m <- get ;;
  let initialLength := length (autoPatterns m) in
  modify (fun m =>
    set_autoPatterns
      (List.filter (fun p => negb (String.eqb (template p) template_))
         (autoPatterns m)) m) ;;
  m <- get ;;
  if (length (autoPatterns m) <? initialLength)%nat then
    saveSettings ;;
    clearUrlCache ;;
    modify (set_autoPatternCache ∅) ;;
    ret true
  else ret false.

(** ** setAutoPatterns and the two getters

    When enabling, [setAutoPatterns] ends by starting
    [applyAutoPatternToExistingTabs], a step of its own. *)
Definition setAutoPatterns (enabled : bool) : M unit :=
  modify (set_enableAutoPatterns enabled) ;;
  saveSettings ;;
  clearUrlCache.

Definition getAutoPatterns : M bool :=
  m <- get ;; ret (enableAutoPatterns m).

Definition getAutoPatternTemplates : M (list string) :=
  m <- get ;; ret (map template (autoPatterns m)).

End Methods.

(* ===================================================================== *)
(** * Loading the settings, and the operations over all tabs *)
(* ===================================================================== *)

(** How a method ends. *)
Inductive Completion := Normal | Throws.

Section Bulk.
Context `{Platform}.
Local Open Scope service_scope.

(** The element functions of the two [map] calls of the storage callback;
    [None] when [new RegExp] throws. *)
Definition loadDomainPattern (p : StoredPattern) : option DomainPattern :=
  (fun r => {| pattern := r; groupName := stored_groupName p;
               color := stored_color p |}) <$> RegExp_new (patternStr p).

Definition loadAutoPattern (p : StoredAutoPattern) : option AutoPattern :=
  (fun r => {| template := stored_template p; regex := r;
               namePosition := stored_namePosition p |}) <$> RegExp_new (regexStr p).

(** The callback of [chrome.storage.local.get].  A [SyntaxError] of the
    first [map] is not caught: it ends the callback, with the fields as
    they are at that point.  The callback ends by starting
    [applyAutoPatternToExistingTabs] when auto-patterns are enabled, which
    is a step of its own. *)
Definition storageCallback (result : Storage) : M unit :=
  continue <-
    match stored_domainPatterns result with
    | Some stored =>
        match mapM loadDomainPattern stored with
        | Some patterns => modify (set_domainPatterns patterns) ;; ret true
        | None => ret false
        end
    | None => ret true
    end ;;
  if continue : bool then
    match stored_enableAutoPatterns result with
    | Some b => modify (set_enableAutoPatterns b)
    | None => ret tt
    end ;;
    match stored_autoPatterns result with
    | Some (p :: ps) =>
        match mapM loadAutoPattern (p :: ps) with
        | Some patterns => modify (set_autoPatterns patterns)
        | None =>
            match createAutoPattern ":name.*" with
            | Some dflt => modify (set_autoPatterns [dflt])
            | None => ret tt
            end
        end
    | _ => ret tt
    end
  else ret tt.

(** ** loadPatternsFromStorage, with its callback run at once *)
Definition loadPatternsFromStorage : M Completion :=
  modify (set_domainPatterns []) ;;
  match createAutoPattern ":name.*" with
  | None => ret Throws
  | Some dflt =>
      modify (set_autoPatterns [dflt]) ;;
      (fun w => storageCallback (local w) w) ;;
      ret Normal
  end.

Definition refreshPatterns : M Completion := loadPatternsFromStorage.

(** ** applyAutoPatternToExistingTabs and applyAutoPatternsToTabs

    [tabs] is the answer of [chrome.tabs.query({})].  A URL that does not
    parse throws out of the loop (the public method catches and logs it,
    the private one rejects its promise): the remaining tabs are not
    visited. *)
Fixpoint applyAutoPattern_for (tabs : list Tab) : M unit :=
  match tabs with
  | [] => ret tt
  | tab :: rest =>
      match tab_url tab, tab_id tab with
      | Some url, Some id =>
          if negb (JS.truthy url) || (id =? 0) then applyAutoPattern_for rest
          else
            match URL_hostname url with
            | None => ret tt
            | Some domain =>
                m <- get ;;
                matchingPattern <- find_pattern (domainPatterns m) domain ;;
                match matchingPattern with
                | Some _ => applyAutoPattern_for rest
                | None =>
                    g <- matchAutoPattern domain ;;
                    match g with
                    | Some name =>
                        if JS.truthy name then
                          modify (fun m =>
                            set_autoPatternCache
                              (<[domain := name]> (autoPatternCache m)) m) ;;
                          addTabToGroup id name None
                        else ret tt
                    | None => ret tt
                    end ;;
                    applyAutoPattern_for rest
                end
            end
      | _, _ => applyAutoPattern_for rest
      end
  end.

Definition applyAutoPatternToExistingTabs (tabs : list Tab) : M unit :=
  m <- get ;;
  if negb (enableAutoPatterns m) then ret tt else applyAutoPattern_for tabs.

Definition applyAutoPatternsToTabs (tabs : list Tab) : M unit :=
  m <- get ;;
  if negb (enableAutoPatterns m) then ret tt else applyAutoPattern_for tabs.

(** ** groupAllExistingTabs *)

(** The filter on the queried tabs. *)
Definition ungrouped (tab : Tab) : bool :=
  (tab_groupId tab =? TAB_GROUP_ID_NONE) &&
  match tab_url tab with
  | Some url =>
      JS.truthy url && negb (JS.includes url "chrome://")
                    && negb (JS.includes url "brave://")
  | None => false
  end.

(** The body of the loop over the ungrouped tabs; [true] when it counted
    the tab as grouped. *)
Definition groupAllExistingTabs_body (tab : Tab) : M bool :=
  match tab_url tab, tab_id tab with
  | Some url, Some id =>
      if negb (JS.truthy url) || (id =? 0) then ret false
      else
        match URL_hostname url with
        | None => ret false
        | Some domain =>
            if negb (JS.truthy domain) then ret false
            else
              m <- get ;;
              matchingPattern <- find_pattern (domainPatterns m) domain ;;
              match matchingPattern with
              | Some p =>
                  addTabToGroup id (groupName p) (color p) ;; ret true
              | None =>
                  if enableAutoPatterns m then
                    let fresh :=
                      g <- matchAutoPattern domain ;;
                      match g with
                      | Some name =>
                          if JS.truthy name then
                            modify (fun m =>
                              set_autoPatternCache
                                (<[domain := name]> (autoPatternCache m)) m) ;;
                            addTabToGroup id name None ;;
                            ret true
                          else ret false
                      | None => ret false
                      end in
                    match autoPatternCache m !! domain with
                    | Some name =>
                        if JS.truthy name
                        then addTabToGroup id name None ;; ret true
                        else fresh
                    | None => fresh
                    end
                  else ret false
              end
        end
  | _, _ => ret false
  end.

Fixpoint groupAllExistingTabs_for (tabs : list Tab) (groupedCount : nat)
  : M nat :=
  match tabs with
  | [] => ret groupedCount
  | tab :: rest =>
      counted <- groupAllExistingTabs_body tab ;;
      groupAllExistingTabs_for rest
        (if counted : bool then S groupedCount else groupedCount)
  end.

Definition groupAllExistingTabs (tabs : list Tab) : M nat :=
  groupAllExistingTabs_for (List.filter ungrouped tabs) 0%nat.

End Bulk.

(* ===================================================================== *)
(** * The message listener of the background service *)
(* ===================================================================== *)

(** The messages of the popup that reach the manager.  The log messages
    and [groupExistingTabs], which answers from a promise, are left out;
    so are the timers that some handlers start after they have answered. *)
Inductive Message :=
| GetAutoPatternTemplates
| GetAutoPatterns
| AddAutoPattern (template_ : string)
| AddPattern (pattern_ : string) (name : string) (c : option ColorEnum)
| RefreshPatterns
| SetAutoPatterns (enabled : bool)
| RemoveAutoPattern (template_ : string)
| UnknownAction.

(** What is passed to [sendResponse]. *)
Inductive Response :=
| Templates (templates : list string)
| Enabled (enabled : bool)
| Success (success : bool)
| Failure (error : string).

Section Listener.
Context `{Platform}.
Local Open Scope service_scope.

Definition includes_template (templates : list string) (t : string) : bool :=
  existsb (String.eqb t) templates.

Definition onMessage (message : Message) : M Response :=
  match message with
  | GetAutoPatternTemplates =>
      templates <- getAutoPatternTemplates ;; ret (Templates templates)
  | GetAutoPatterns =>
      enabled <- getAutoPatterns ;; ret (Enabled enabled)
  | AddAutoPattern t =>
      if negb (JS.truthy t) || negb (JS.includes t ":name")
      then ret (Failure "Invalid template format")
      else
        success <- addAutoPattern t ;;
        templates <- getAutoPatternTemplates ;;
        let wasAdded := includes_template templates t in
        ret (Success wasAdded)
  | AddPattern p name c =>
      addPattern p name c ;; ret (Success true)
  | RefreshPatterns =>
      r <- refreshPatterns ;;
      match r with
      | Normal => ret (Success true)
      | Throws => ret (Failure "SyntaxError")
      end
  | SetAutoPatterns enabled =>
      setAutoPatterns enabled ;; ret (Success true)
  | RemoveAutoPattern t =>
      success <- removeAutoPattern t ;;
      templates <- getAutoPatternTemplates ;;
      let wasRemoved := negb (includes_template templates t) in
      ret (Success wasRemoved)
  | UnknownAction => ret (Failure "Unknown action")
  end.

End Listener.

(* ===================================================================== *)
(** * A concrete platform *)
(* ===================================================================== *)

(** Regular expressions restricted to what [createAutoPattern] emits for
    templates made of domain labels, and to plain manual patterns:
    literal characters, escaped punctuation, [.], the two label forms
    [[^.]+] and [([^.]+)], and the anchors [^] and [$] at the two ends.
    A source text outside this sub-language is rejected by this
    instance.  URLs are restricted to [http://] and [https://] followed
    by a lower-case host. *)
Module Host.

Inductive Atom :=
| Lit (c : ascii)
| AnyChar
| Label (capture : bool).

Record Prog := {
  fromStart : bool;
  atoms : list Atom;
  toEnd : bool
}.

Fixpoint drop_string (n : nat) (s : string) : string :=
  match n, s with
  | O, _ => s
  | S k, EmptyString => EmptyString
  | S k, String _ s' => drop_string k s'
  end.

(** The syntax characters of a pattern. *)
Definition syntaxChar (c : ascii) : bool :=
  existsb (Ascii.eqb c)
    ["^"; "$"; "\"; "."; "*"; "+"; "?"; "("; ")"; "["; "]"; "{"; "}"; "|"; "/"]%char.

(** Reads the atoms of a source text; the flag tells whether it ends
    with the anchor [$].  [fuel] bounds the number of atoms. *)
Fixpoint parse_atoms (fuel : nat) (s : string) : option (list Atom * bool) :=
  match fuel with
  | O => match s with EmptyString => Some ([], false) | _ => None end
  | S fuel' =>
      match s with
      | EmptyString => Some ([], false)
      | String c s' =>
          if String.prefix "([^.]+)" s then
            (fun r => (Label true :: fst r, snd r)) <$> parse_atoms fuel' (drop_string 7 s)
          else if String.prefix "[^.]+" s then
            (fun r => (Label false :: fst r, snd r)) <$> parse_atoms fuel' (drop_string 5 s)
          else if Ascii.eqb c "\" then
            match s' with
            | String e s'' =>
                if syntaxChar e || Ascii.eqb e "-"
                then (fun r => (Lit e :: fst r, snd r)) <$> parse_atoms fuel' s''
                else None
            | EmptyString => None
            end
          else if Ascii.eqb c "$" then
            match s' with EmptyString => Some ([], true) | _ => None end
          else if Ascii.eqb c "." then
            (fun r => (AnyChar :: fst r, snd r)) <$> parse_atoms fuel' s'
          else if syntaxChar c then None
          else (fun r => (Lit c :: fst r, snd r)) <$> parse_atoms fuel' s'
      end
  end.

Definition parse (src : string) : option Prog :=
  let (start, body) :=
    match src with
    | String "^" body => (true, body)
    | _ => (false, src)
    end in
  (fun r => {| fromStart := start; atoms := fst r; toEnd := snd r |})
    <$> parse_atoms (String.length body) body.

(** The ways to read one label at the head of [s], the longest first:
    the label and what follows it. *)
Fixpoint labelSplits (s : string) : list (string * string) :=
  match s with
  | EmptyString => []
  | String c s' =>
      if Ascii.eqb c "." then []
      else map (fun r => (String c (fst r), snd r)) (labelSplits s')
             ++ [(String c EmptyString, s')]
  end.

Fixpoint first_some {A B} (f : A -> option B) (l : list A) : option B :=
  match l with
  | [] => None
  | a :: l' => match f a with Some b => Some b | None => first_some f l' end
  end.

Definition lineTerminator (c : ascii) : bool :=
  Ascii.eqb c "010" || Ascii.eqb c "013".

(** Matches the atoms at the head of [s], backtracking over the label
    lengths: the captures and the matched text. *)
Fixpoint matchAtoms (ats : list Atom) (atEnd : bool) (s : string)
  : option (list string * string) :=
  match ats with
  | [] =>
      if atEnd then
        match s with EmptyString => Some ([], EmptyString) | _ => None end
      else Some ([], EmptyString)
  | Lit c :: rest =>
      match s with
      | String a s' =>
          if Ascii.eqb a c
          then (fun r => (fst r, String a (snd r))) <$> matchAtoms rest atEnd s'
          else None
      | EmptyString => None
      end
  | AnyChar :: rest =>
      match s with
      | String a s' =>
          if lineTerminator a then None
          else (fun r => (fst r, String a (snd r))) <$> matchAtoms rest atEnd s'
      | EmptyString => None
      end
  | Label capture :: rest =>
      first_some
        (fun split =>
           (fun r => (if capture then fst split :: fst r else fst r,
                      String.append (fst split) (snd r)))
             <$> matchAtoms rest atEnd (snd split))
        (labelSplits s)
  end.

(** The leftmost match. *)
Fixpoint search (ats : list Atom) (atEnd : bool) (s : string)
  : option (list string * string) :=
  match matchAtoms ats atEnd s with
  | Some r => Some r
  | None =>
      match s with
      | EmptyString => None
      | String _ s' => search ats atEnd s'
      end
  end.

(** A domain label: not empty, without a dot. *)
Fixpoint dotFree (s : string) : bool :=
  match s with
  | EmptyString => true
  | String c s' => negb (Ascii.eqb c ".") && dotFree s'
  end.

Definition isLabel (s : string) : bool := JS.truthy s && dotFree s.

(** What it means for a whole string to match a list of atoms, with the
    texts of the capturing labels: the reading that [matchAtoms] is to
    find when the pattern ends with [$]. *)
Inductive Matches : list Atom -> string -> list string -> Prop :=
| Matches_nil : Matches [] EmptyString []
| Matches_Lit c rest s caps :
    Matches rest s caps -> Matches (Lit c :: rest) (String c s) caps
| Matches_AnyChar c rest s caps :
    lineTerminator c = false ->
    Matches rest s caps -> Matches (AnyChar :: rest) (String c s) caps
| Matches_Label capture rest l s caps :
    isLabel l = true ->
    Matches rest s caps ->
    Matches (Label capture :: rest) (String.append l s)
            (if capture : bool then l :: caps else caps).

(** The atoms of a literal text. *)
Fixpoint lits (s : string) : list Atom :=
  match s with
  | EmptyString => []
  | String c s' => Lit c :: lits s'
  end.

Definition exec (p : Prog) (s : string) : option (list (option string)) :=
  (fun r => Some (snd r) :: map Some (fst r))
    <$> (if fromStart p then matchAtoms (atoms p) (toEnd p) s
         else search (atoms p) (toEnd p) s).

Definition wellFormed (src : string) : bool :=
  match parse src with Some _ => true | None => false end.

(** A regular expression object: its source text, which parses. *)
Definition regexp : Type := { src : string | wellFormed src = true }.

Definition new (src : string) : option regexp :=
  match bool_dec (wellFormed src) true with
  | left ok => Some (exist _ src ok)
  | right _ => None
  end.

Definition source (r : regexp) : string := proj1_sig r.

Definition match_string (s : string) (r : regexp) : option (list (option string)) :=
  match parse (source r) with
  | Some p => exec p s
  | None => None
  end.

Definition test_string (r : regexp) (s : string) : bool :=
  match match_string s r with Some _ => true | None => false end.

Definition hostChar (c : ascii) : bool :=
  negb (existsb (Ascii.eqb c) ["/"; "?"; "#"; ":"; "@"; " "]%char).

Fixpoint takeHost (s : string) : string :=
  match s with
  | EmptyString => EmptyString
  | String c s' => if hostChar c then String c (takeHost s') else EmptyString
  end.

Definition hostname (url : string) : option string :=
  let rest :=
    if String.prefix "https://" url then Some (drop_string 8 url)
    else if String.prefix "http://" url then Some (drop_string 7 url)
    else None in
  match rest with
  | Some r =>
      match takeHost r with
      | EmptyString => None
      | h => Some h
      end
  | None => None
  end.

Definition platform : Platform := {|
  RegExp := regexp;
  RegExp_new := new;
  RegExp_source := source;
  RegExp_test := test_string;
  String_match := match_string;
  URL_hostname := hostname
|}.

End Host.

(* ===================================================================== *)
(** * Vocabulary of the properties *)
(* ===================================================================== *)

Section Vocabulary.
Context `{Platform}.

(** The world after a computation, and the events the computation added. *)
Definition run {A} (c : M A) (w : World) : World := snd (c w).

Definition emitted {A} (c : M A) (w : World) : list Event :=
  drop (length (events w)) (events (run c w)).

Definition log (evs : list Event) (w : World) : World :=
  {| this := this w; local := local w; events := events w ++ evs |}.

Definition is_request (e : Event) : bool :=
  match e with AddTabToGroup _ _ _ => true | _ => false end.

Definition is_regex_call (e : Event) : bool :=
  match e with AddTabToGroup _ _ _ => false | _ => true end.

Definition is_auto_call (e : Event) : bool :=
  match e with StringMatch _ _ => true | _ => false end.

(** The first manual pattern, in list order, that matches the domain, and
    the patterns that are tested until it is found. *)
Definition first_match (patterns : list DomainPattern) (domain : string)
  : option DomainPattern :=
  List.find (fun p => RegExp_test (pattern p) domain) patterns.

Fixpoint tested (patterns : list DomainPattern) (domain : string)
  : list DomainPattern :=
  match patterns with
  | [] => []
  | p :: rest =>
      p :: (if RegExp_test (pattern p) domain then [] else tested rest domain)
  end.

Definition tests (patterns : list DomainPattern) (domain : string) : list Event :=
  map (fun p => RegExpTest (pattern p) domain) (tested patterns domain).

(** The name that one auto-pattern captures in a domain, when it matches
    with a non-empty capture at its name position. *)
Definition captured (p : AutoPattern) (domain : string) : option string :=
  match String_match domain (regex p) with
  | Some arr =>
      match arr !! namePosition p with
      | Some (Some name) => if JS.truthy name then Some name else None
      | _ => None
      end
  | None => None
  end.

(** The result of the auto-patterns on a domain, and the patterns that
    are tried for it. *)
Fixpoint auto_result (patterns : list AutoPattern) (domain : string)
  : option string :=
  match patterns with
  | [] => None
  | p :: rest =>
      match captured p domain with
      | Some name => Some (JS.capitalize name)
      | None => auto_result rest domain
      end
  end.

Fixpoint tried (patterns : list AutoPattern) (domain : string)
  : list AutoPattern :=
  match patterns with
  | [] => []
  | p :: rest =>
      p :: (match captured p domain with
            | Some _ => []
            | None => tried rest domain
            end)
  end.

Definition matches (patterns : list AutoPattern) (domain : string) : list Event :=
  map (fun p => StringMatch domain (regex p)) (tried patterns domain).

(** A tab that [handleTabUpdate] does not skip: not in a group, with an
    id and a URL that is not an internal page of the browser. *)
Definition eligible (tab : Tab) (id : Z) (url : string) : Prop :=
  tab_groupId tab = TAB_GROUP_ID_NONE /\
  tab_url tab = Some url /\ tab_id tab = Some id /\
  JS.truthy url = true /\ id <> 0 /\
  JS.startsWith url "chrome://" = false /\
  JS.startsWith url "brave://" = false.

(** Every entry of the domain cache is what the auto-patterns of the
    manager return for that domain. *)
Definition cache_coherent (m : TabGroupManager) : Prop :=
  forall domain name,
    autoPatternCache m !! domain = Some name ->
    auto_result (autoPatterns m) domain = Some name.

Definition templates_of (m : TabGroupManager) : list string :=
  map template (autoPatterns m).

(** What [saveSettings] stores for a list of auto-patterns. *)
Definition stored_of (patterns : list AutoPattern) : list StoredAutoPattern :=
  map (fun p => {| stored_template := template p;
                   regexStr := RegExp_source (regex p);
                   stored_namePosition := namePosition p |}) patterns.

(** The storage holds the auto-patterns and the flag of the manager. *)
Definition settings_saved (w : World) : Prop :=
  stored_autoPatterns (local w) = Some (stored_of (autoPatterns (this w))) /\
  stored_enableAutoPatterns (local w) = Some (enableAutoPatterns (this w)).

(** The settings of a world: what classification reads but the caches,
    and what is stored. *)
Definition same_settings (w w' : World) : Prop :=
  domainPatterns (this w') = domainPatterns (this w) /\
  enableAutoPatterns (this w') = enableAutoPatterns (this w) /\
  autoPatterns (this w') = autoPatterns (this w) /\
  local w' = local w.

(** A computation that relates every world to the world it leaves. *)
Definition keeps {A} (R : World -> World -> Prop) (c : M A) : Prop :=
  forall w, R w (run c w).

(** The manager as the class initialises its fields, before the
    constructor runs. *)
Definition new_manager : TabGroupManager :=
  {| domainPatterns := []; enableAutoPatterns := true; autoPatterns := [];
     autoPatternCache := ∅; processedUrls := ∅ |}.

(** The constructor, on what the storage holds: the fields are
    initialised and the settings are loaded. *)
Definition constructor (s : Storage) : World :=
  run loadPatternsFromStorage
    {| this := new_manager; local := s; events := [] |}.

(** One step of the life of the service: an event of the browser, a
    message of the popup, the popup saving its list of manual patterns,
    or the background service being started again. *)
Inductive step : World -> World -> Prop :=
| step_onCreated tab w : step w (run (onCreated tab) w)
| step_onUpdated changedUrl tab w : step w (run (onUpdated changedUrl tab) w)
| step_onActivated tab w : step w (run (onActivated tab) w)
| step_handleTabUpdate tab w : step w (run (handleTabUpdate tab) w)
| step_groupAllExistingTabs tabs w : step w (run (groupAllExistingTabs tabs) w)
| step_applyAutoPatternToExistingTabs tabs w :
    step w (run (applyAutoPatternToExistingTabs tabs) w)
| step_applyAutoPatternsToTabs tabs w :
    step w (run (applyAutoPatternsToTabs tabs) w)
| step_onMessage message w : step w (run (onMessage message) w)
| step_popup_saves stored w :
    step w (with_local
              {| stored_domainPatterns := Some stored;
                 stored_enableAutoPatterns := stored_enableAutoPatterns (local w);
                 stored_autoPatterns := stored_autoPatterns (local w) |} w)
| step_restart w : step w (constructor (local w)).

(** The worlds that the service reaches from a first start on an empty
    storage. *)
Inductive reachable : World -> Prop :=
| reachable_start : reachable (constructor empty_storage)
| reachable_step w w' : reachable w -> step w w' -> reachable w'.

(** No template occurs twice, in the manager or in the storage. *)
Definition templates_distinct (w : World) : Prop :=
  NoDup (templates_of (this w)) /\
  match stored_autoPatterns (local w) with
  | Some stored => NoDup (map stored_template stored)
  | None => True
  end.

End Vocabulary.


(* ===================================================================== *)
(** * The log manager *)
(* ===================================================================== *)

(** [class LogManager]: its static field [logs], newest entry first.  The
    timestamp of an entry is [new Date().toISOString()], taken here as an
    argument; the level selects the console method only. *)
Module LogManager.

Inductive Level := LevelLog | LevelError | LevelWarn.

Definition maxLogs : nat := 100.

Definition logMessage (timestamp message : string) : string :=
  "[" ++ timestamp ++ "] " ++ message.

(** [LogManager.log]: [unshift], then one [pop] when the array has grown
    beyond [maxLogs]. *)
Definition log (timestamp message : string) (level : Level)
    (logs : list string) : list string :=
  let logs := logMessage timestamp message :: logs in
  if (maxLogs <? length logs)%nat then removelast logs else logs.

Definition getLogs (logs : list string) : list string := logs.

Definition clearLogs (logs : list string) : list string := [].

(** The field after a run of [log] calls, the oldest call first. *)
Definition log_all (calls : list (string * string * Level))
    (logs : list string) : list string :=
  fold_left (fun logs call => log (fst (fst call)) (snd (fst call)) (snd call) logs)
            calls logs.

End LogManager.

(* ===================================================================== *)
(** * The list of manual patterns of the popup *)
(* ===================================================================== *)

(** The part of [class PopupManager] that keeps its field [patterns] and
    talks to the background service about it.  The page elements, the
    alerts and the rendering are not modelled.  A message to the
    background service is handled by [onMessage] at once: the answer is
    taken to arrive before the timer with which the popup gives up. *)
Module Popup.

Definition whitespace (c : ascii) : bool :=
  existsb (Ascii.eqb c) ["009"; "010"; "011"; "012"; "013"; " "]%char.

Fixpoint trimStart (s : string) : string :=
  match s with
  | EmptyString => EmptyString
  | String c s' => if whitespace c then trimStart s' else s
  end.

Fixpoint trimEnd (s : string) : string :=
  match s with
  | EmptyString => EmptyString
  | String c s' =>
      match trimEnd s' with
      | EmptyString => if whitespace c then EmptyString else String c EmptyString
      | rest => String c rest
      end
  end.

(** [s.trim()] *)
Definition trim (s : string) : string := trimEnd (trimStart s).

(** [patterns.splice(index, 1)] *)
Definition splice1 {A} (index : nat) (l : list A) : list A :=
  take index l ++ drop (S index) l.

(** How [PopupManager.addPattern] ends. *)
Inductive Outcome :=
| MissingInput
| InvalidRegex
| BackgroundFailed
| Added.

Section Methods.
Context `{Platform}.
Local Open Scope service_scope.

(** [PopupManager.loadPatterns] *)
Definition loadPatterns (patterns : list StoredPattern) : M (list StoredPattern) :=
  fun w =>
    (match stored_domainPatterns (local w) with
     | Some stored => stored
     | None => patterns
     end, w).

(** [PopupManager.savePatterns] *)
Definition savePatterns (patterns : list StoredPattern) : M unit :=
  fun w =>
    (tt, with_local
           {| stored_domainPatterns := Some patterns;
              stored_enableAutoPatterns := stored_enableAutoPatterns (local w);
              stored_autoPatterns := stored_autoPatterns (local w) |} w).

(** [PopupManager.addPattern], with the values of the two inputs and of
    the color selection; it returns the field [patterns]. *)
Definition addPattern (patternInput groupNameInput : string) (c : ColorEnum)
    (patterns : list StoredPattern) : M (Outcome * list StoredPattern) :=
  let patternStr_ := trim patternInput in
  let name := trim groupNameInput in
  if negb (JS.truthy patternStr_) || negb (JS.truthy name)
  then ret (MissingInput, patterns)
  else
    match RegExp_new patternStr_ with
    | None => ret (InvalidRegex, patterns)
    | Some _ =>
        let pattern_ := {| patternStr := patternStr_; stored_groupName := name;
                           stored_color := Some c |} in
        response <- onMessage (AddPattern patternStr_ name (Some c)) ;;
        match response with
        | Success true =>
            let patterns := (patterns ++ [pattern_])%list in
            savePatterns patterns ;;
            ret (Added, patterns)
        | _ => ret (BackgroundFailed, patterns)
        end
    end.

(** [PopupManager.removePattern] *)
Definition removePattern (index : nat) (patterns : list StoredPattern)
  : M (list StoredPattern) :=
  let patterns := splice1 index patterns in
  savePatterns patterns ;;
  onMessage RefreshPatterns ;;
  ret patterns.

End Methods.

End Popup.

Section BulkVocabulary.
Context `{Platform}.

(** A tab that the loop of [groupAllExistingTabs] classifies: it has an
    id and a URL that parses to a non-empty host name. *)
Definition classifiable (tab : Tab) (id : Z) (url domain : string) : Prop :=
  tab_url tab = Some url /\ tab_id tab = Some id /\
  JS.truthy url = true /\ id <> 0 /\
  URL_hostname url = Some domain /\ JS.truthy domain = true.

(** A tab with an id and a URL that the URL parser rejects. *)
Definition unparsable (tab : Tab) : Prop :=
  exists id url,
    tab_url tab = Some url /\ tab_id tab = Some id /\
    JS.truthy url = true /\ id <> 0 /\ URL_hostname url = None.

Definition requests (evs : list Event) : list Event := List.filter is_request evs.

(** The requests made for one tab: none, or a single one with the id of
    the tab. *)
Definition request_for (tab : Tab) (reqs : list Event) : Prop :=
  reqs = [] \/
  exists id name c, tab_id tab = Some id /\ reqs = [AddTabToGroup id name c].

End BulkVocabulary.

Section PopupVocabulary.
Context `{Platform}.

(** The popup and the background service hold the same manual patterns:
    the list of the popup, compiled, is the list of the manager, and it
    is what the storage holds (or nothing was stored yet). *)
Definition in_sync (patterns : list StoredPattern) (w : World) : Prop :=
  mapM loadDomainPattern patterns = Some (domainPatterns (this w)) /\
  (stored_domainPatterns (local w) = Some patterns \/
   stored_domainPatterns (local w) = None /\ patterns = []).

End PopupVocabulary.

(* ===================================================================== *)
(** * Templates as lists of tokens *)
(* ===================================================================== *)

(** The vocabulary in which the properties of [createAutoPattern] are
    stated: a template spelled as a list of tokens, the regular
    expression text that corresponds to it, and the atoms of that text
    on the concrete platform.  A plain character is one that is neither
    a syntax character of patterns nor a colon. *)
Module Template.

Inductive Token :=
| TName
| TWild
| TDot
| TChar (c : ascii).

Definition plainChar (c : ascii) : bool :=
  negb (Host.syntaxChar c) && negb (Ascii.eqb c ":").

Definition plain (t : Token) : bool :=
  match t with
  | TChar c => plainChar c
  | _ => true
  end.

Definition is_name (t : Token) : bool :=
  match t with TName => true | _ => false end.

Definition render (t : Token) : string :=
  match t with
  | TName => ":name"
  | TWild => "*"
  | TDot => "."
  | TChar c => String c EmptyString
  end.

Definition pattern_text (t : Token) : string :=
  match t with
  | TName => "([^.]+)"
  | TWild => "[^.]+"
  | TDot => "\."
  | TChar c => String c EmptyString
  end.

Fixpoint spell_with (f : Token -> string) (tokens : list Token) : string :=
  match tokens with
  | [] => EmptyString
  | t :: rest => String.append (f t) (spell_with f rest)
  end.

(** The template that a list of tokens spells, and the text between
    [^] and [$] of its regular expression. *)
Definition spell (tokens : list Token) : string := spell_with render tokens.

Definition regex_text (tokens : list Token) : string :=
  spell_with pattern_text tokens.

Definition is_label (t : Token) : bool :=
  match t with TName | TWild => true | _ => false end.

Definition is_dot (t : Token) : bool :=
  match t with TDot => true | _ => false end.

(** Every [:name] and [*] is followed by a dot or by the end of the
    template. *)
Fixpoint delimited (tokens : list Token) : bool :=
  match tokens with
  | [] => true
  | t :: rest =>
      (if is_label t
       then match rest with [] => true | t' :: _ => is_dot t' end
       else true)
      && delimited rest
  end.

Definition atom_of (t : Token) : Host.Atom :=
  match t with
  | TName => Host.Label true
  | TWild => Host.Label false
  | TDot => Host.Lit "."
  | TChar c => Host.Lit c
  end.

End Template.
(* ===================================================================== *)
(** * Concrete worlds on the concrete platform *)
(* ===================================================================== *)

Module Examples.

#[local] Existing Instance Host.platform.

Definition regexp_of (src : string) (ok : Host.wellFormed src = true) : Host.regexp :=
  exist _ src ok.

(** The manual pattern [github\.com -> GitHub] of the popup. *)
Definition github : DomainPattern :=
  {| pattern := regexp_of "github\.com" eq_refl;
     groupName := "GitHub"; color := Some "blue" |}.

(** The default auto-pattern, compiled from [:name.*]. *)
Definition default_auto : AutoPattern :=
  {| template := ":name.*";
     regex := regexp_of "^([^.]+)\.[^.]+$" eq_refl;
     namePosition := 1 |}.

(** The auto-patterns that [:name.example.com] and [:name.*.example.com]
    compile to. *)
Definition name_example_com : AutoPattern :=
  {| template := ":name.example.com";
     regex := regexp_of "^([^.]+)\.example\.com$" eq_refl;
     namePosition := 1 |}.

Definition name_any_example_com : AutoPattern :=
  {| template := ":name.*.example.com";
     regex := regexp_of "^([^.]+)\.[^.]+\.example\.com$" eq_refl;
     namePosition := 1 |}.

Definition manager0 : TabGroupManager :=
  {| domainPatterns := []; enableAutoPatterns := true;
     autoPatterns := [default_auto];
     autoPatternCache := ∅; processedUrls := ∅ |}.

(** The world after the constructor, on an empty storage. *)
Definition fresh : World :=
  {| this := manager0; local := empty_storage; events := [] |}.

(** The same with the manual pattern of GitHub. *)
Definition with_github : World :=
  {| this := set_domainPatterns [github] manager0;
     local := empty_storage; events := [] |}.

Definition tab (id : Z) (url : string) : Tab :=
  {| tab_id := Some id; tab_url := Some url;
     tab_groupId := TAB_GROUP_ID_NONE; tab_active := true |}.

(** A tab whose URL does not parse. *)
Definition unparsable_tab : Tab := tab 5 "nonsense".

(** What the popup holds for the manual pattern of GitHub, and a world in
    which the popup list [[github_entry]] and the manager agree. *)
Definition github_entry : StoredPattern :=
  {| patternStr := "github\.com"; stored_groupName := "GitHub";
     stored_color := Some "blue" |}.

Definition synced : World :=
  {| this := set_domainPatterns [github] manager0;
     local := {| stored_domainPatterns := Some [github_entry];
                 stored_enableAutoPatterns := None;
                 stored_autoPatterns := None |};
     events := [] |}.

(** A storage whose only manual pattern does not compile, and one whose
    only auto-pattern has a text that does not compile. *)
Definition broken_manual : Storage :=
  {| stored_domainPatterns :=
       Some [{| patternStr := "("; stored_groupName := "Broken";
                stored_color := None |}];
     stored_enableAutoPatterns := Some false;
     stored_autoPatterns := None |}.

Definition broken_auto : Storage :=
  {| stored_domainPatterns := None;
     stored_enableAutoPatterns := Some false;
     stored_autoPatterns :=
       Some [{| stored_template := ":name.example.com"; regexStr := "(";
                stored_namePosition := 1 |}] |}.

Definition at_storage (s : Storage) : World :=
  {| this := manager0; local := s; events := [] |}.

(** [:name.*.example.com], token by token. *)
Definition chars (s : string) : list Template.Token :=
  map Template.TChar (list_ascii_of_string s).

Definition name_any_example_com_tokens : list Template.Token :=
  ([Template.TName; Template.TDot; Template.TWild; Template.TDot]
     ++ chars "example" ++ [Template.TDot] ++ chars "com")%list.

End Examples.
(* ===================================================================== *)
(** * Properties *)
(* ===================================================================== *)

Local Open Scope list_scope.

Ltac unfold_monad :=
  unfold run, test, match_, addTabToGroup, clearUrlCache, bind, ret, get,
    modify, emit, with_this, with_local, log in *; simpl in *.

Section Loops.
Context `{Platform}.

Lemma log_nil (w : World) : log [] w = w.
Proof. destruct w; unfold log; simpl; by rewrite app_nil_r. Qed.

Lemma log_log (a b : list Event) (w : World) : log b (log a w) = log (a ++ b) w.
Proof. unfold log; simpl; by rewrite app_assoc. Qed.

Lemma emitted_log {A} (c : M A) (w : World) (evs : list Event) :
  events (run c w) = events w ++ evs -> emitted c w = evs.
Proof. unfold emitted; intros ->. by rewrite drop_app_length. Qed.

(** [find] over the manual patterns returns the first match and tests
    the patterns up to it, in order. *)
Lemma find_pattern_spec (patterns : list DomainPattern) (domain : string) (w : World) :
  find_pattern patterns domain w
  = (first_match patterns domain, log (tests patterns domain) w).
Proof.
  revert w; induction patterns as [|p rest IH]; intros w.
  - simpl. by rewrite log_nil.
  - unfold tests, first_match in *; simpl. unfold_monad.
    destruct (RegExp_test (pattern p) domain); simpl; [done|].
    rewrite IH; simpl. by rewrite <- app_assoc.
Qed.

(** The loop of [handleTabUpdate] over the manual patterns. *)
Lemma handleTabUpdate_for_spec (id : Z) (url domain : string)
    (patterns : list DomainPattern) (w : World) :
  handleTabUpdate_for id url domain patterns w
  = match first_match patterns domain with
    | Some p =>
        (true,
         {| this := set_processedUrls
                      (<[url := groupName p]> (processedUrls (this w))) (this w);
            local := local w;
            events := events w ++ tests patterns domain
                        ++ [AddTabToGroup id (groupName p) (color p)] |})
    | None => (false, log (tests patterns domain) w)
    end.
Proof.
  revert w; induction patterns as [|p rest IH]; intros w.
  - simpl. by rewrite log_nil.
  - unfold tests, first_match in *; simpl. unfold_monad.
    destruct (RegExp_test (pattern p) domain); simpl.
    + by rewrite <- app_assoc.
    + rewrite IH; simpl.
      destruct (find _ rest); simpl; by rewrite <- !app_assoc.
Qed.

(** The loop of [matchAutoPattern]. *)
Lemma matchAutoPattern_for_spec (patterns : list AutoPattern) (domain : string)
    (w : World) :
  matchAutoPattern_for patterns domain w
  = (auto_result patterns domain, log (matches patterns domain) w).
Proof.
  revert w; induction patterns as [|p rest IH]; intros w.
  - simpl. by rewrite log_nil.
  - unfold matches in *; simpl. unfold captured. unfold_monad.
    destruct (String_match domain (regex p)) as [arr|]; simpl.
    + destruct (arr !! namePosition p) as [[name|]|]; simpl.
      * destruct (JS.truthy name); simpl; [done|].
        rewrite IH; simpl. by rewrite <- app_assoc.
      * rewrite IH; simpl. by rewrite <- app_assoc.
      * rewrite IH; simpl. by rewrite <- app_assoc.
    + rewrite IH; simpl. by rewrite <- app_assoc.
Qed.

Lemma matchAutoPattern_spec (domain : string) (w : World) :
  matchAutoPattern domain w
  = (auto_result (autoPatterns (this w)) domain,
     log (matches (autoPatterns (this w)) domain) w).
Proof. unfold matchAutoPattern. unfold_monad. apply matchAutoPattern_for_spec. Qed.

(** A name that the auto-patterns return is never empty. *)
Lemma capitalize_truthy (name : string) :
  JS.truthy name = true -> JS.truthy (JS.capitalize name) = true.
Proof. by destruct name. Qed.

Lemma auto_result_truthy (patterns : list AutoPattern) (domain name : string) :
  auto_result patterns domain = Some name -> JS.truthy name = true.
Proof.
  induction patterns as [|p rest IH]; simpl; [done|].
  unfold captured.
  destruct (String_match domain (regex p)) as [arr|]; [|done].
  destruct (arr !! namePosition p) as [[n|]|]; [|done|done].
  destruct (JS.truthy n) eqn:E; [|done].
  intros [= <-]. by apply capitalize_truthy.
Qed.

(** Appending a pattern does not change the result for a domain that
    already has one. *)
Lemma auto_result_app (patterns more : list AutoPattern) (domain name : string) :
  auto_result patterns domain = Some name ->
  auto_result (patterns ++ more) domain = Some name.
Proof.
  induction patterns as [|p rest IH]; simpl; [done|].
  destruct (captured p domain); [done|]. apply IH.
Qed.

End Loops.

Section HandleTabUpdate.
Context `{Platform}.

Ltac enter_handleTabUpdate Hel :=
  destruct Hel as (Hgroup & Hurl & Hid & Htruthy & Hnz & Hchrome & Hbrave);
  unfold handleTabUpdate;
  rewrite Hgroup, Hurl, Hid, Htruthy, Hchrome, Hbrave;
  replace (_ =? 0) with false by (symmetry; by apply Z.eqb_neq);
  simpl.

(** A cache hit: no pattern is looked at; the request is repeated for a
    non-empty cached name. *)
Lemma handleTabUpdate_hit (tab : Tab) (id : Z) (url cached : string) (w : World) :
  eligible tab id url ->
  processedUrls (this w) !! url = Some cached ->
  handleTabUpdate tab w
  = (tt, log (if JS.truthy cached then [AddTabToGroup id cached None] else []) w).
Proof.
  intros Hel Hhit. enter_handleTabUpdate Hel.
  unfold_monad. rewrite Hhit.
  destruct (JS.truthy cached); [done|]. by rewrite app_nil_r; destruct w.
Qed.

(** A cache miss on a URL that does not parse: the error is caught. *)
Lemma handleTabUpdate_invalid_url (tab : Tab) (id : Z) (url : string) (w : World) :
  eligible tab id url ->
  processedUrls (this w) !! url = None ->
  URL_hostname url = None ->
  handleTabUpdate tab w = (tt, w).
Proof.
  intros Hel Hmiss Hparse. enter_handleTabUpdate Hel.
  unfold_monad. by rewrite Hmiss, Hparse.
Qed.

(** A cache miss, a manual pattern matches. *)
Lemma handleTabUpdate_manual (tab : Tab) (id : Z) (url domain : string)
    (p : DomainPattern) (w : World) :
  eligible tab id url ->
  processedUrls (this w) !! url = None ->
  URL_hostname url = Some domain ->
  first_match (domainPatterns (this w)) domain = Some p ->
  handleTabUpdate tab w
  = (tt,
     {| this := set_processedUrls
                  (<[url := groupName p]> (processedUrls (this w))) (this w);
        local := local w;
        events := events w ++ tests (domainPatterns (this w)) domain
                    ++ [AddTabToGroup id (groupName p) (color p)] |}).
Proof.
  intros Hel Hmiss Hparse Hfirst. enter_handleTabUpdate Hel.
  unfold bind at 1. unfold get at 1. simpl.
  rewrite Hmiss, Hparse. unfold bind at 1.
  by rewrite handleTabUpdate_for_spec, Hfirst.
Qed.

(** A cache miss, no manual pattern matches, an auto-pattern does. *)
Lemma handleTabUpdate_auto (tab : Tab) (id : Z) (url domain name : string)
    (w : World) :
  eligible tab id url ->
  processedUrls (this w) !! url = None ->
  URL_hostname url = Some domain ->
  first_match (domainPatterns (this w)) domain = None ->
  enableAutoPatterns (this w) = true ->
  auto_result (autoPatterns (this w)) domain = Some name ->
  handleTabUpdate tab w
  = (tt,
     {| this := set_processedUrls (<[url := name]> (processedUrls (this w)))
                  (set_autoPatternCache
                     (<[domain := name]> (autoPatternCache (this w))) (this w));
        local := local w;
        events := events w ++ tests (domainPatterns (this w)) domain
                    ++ matches (autoPatterns (this w)) domain
                    ++ [AddTabToGroup id name None] |}).
Proof.
  intros Hel Hmiss Hparse Hfirst Hen Hauto. enter_handleTabUpdate Hel.
  unfold bind at 1. unfold get at 1. simpl.
  rewrite Hmiss, Hparse. unfold bind at 1.
  rewrite handleTabUpdate_for_spec, Hfirst.
  unfold bind at 1. unfold get at 1. simpl. rewrite Hen.
  unfold bind at 1. unfold bind at 1.
  rewrite matchAutoPattern_spec. simpl. rewrite Hauto.
  rewrite (auto_result_truthy _ _ _ Hauto).
  unfold_monad. by rewrite <- !app_assoc.
Qed.

(** A cache miss, nothing matches: the empty string is cached. *)
Lemma handleTabUpdate_none (tab : Tab) (id : Z) (url domain : string) (w : World) :
  eligible tab id url ->
  processedUrls (this w) !! url = None ->
  URL_hostname url = Some domain ->
  first_match (domainPatterns (this w)) domain = None ->
  (enableAutoPatterns (this w) = true ->
   auto_result (autoPatterns (this w)) domain = None) ->
  handleTabUpdate tab w
  = (tt,
     {| this := set_processedUrls (<[url := ""%string]> (processedUrls (this w)))
                  (this w);
        local := local w;
        events := events w ++ tests (domainPatterns (this w)) domain
                    ++ (if enableAutoPatterns (this w)
                        then matches (autoPatterns (this w)) domain else []) |}).
Proof.
  intros Hel Hmiss Hparse Hfirst Hauto. enter_handleTabUpdate Hel.
  unfold bind at 1. unfold get at 1. simpl.
  rewrite Hmiss, Hparse. unfold bind at 1.
  rewrite handleTabUpdate_for_spec, Hfirst.
  unfold bind at 1. unfold get at 1. simpl.
  destruct (enableAutoPatterns (this w)) eqn:Hen.
  - unfold bind at 1. unfold bind at 1.
    rewrite matchAutoPattern_spec. simpl. rewrite (Hauto eq_refl).
    unfold_monad. by rewrite <- !app_assoc.
  - unfold_monad. by rewrite app_nil_r.
Qed.

End HandleTabUpdate.

Section ManualFirst.
Context `{Platform}.

(** The first match and the tested patterns, from a split of the list at
    the first pattern that matches. *)
Lemma first_match_split (before after : list DomainPattern) (p : DomainPattern)
    (domain : string) :
  Forall (fun q => RegExp_test (pattern q) domain = false) before ->
  RegExp_test (pattern p) domain = true ->
  first_match (before ++ p :: after) domain = Some p /\
  tested (before ++ p :: after) domain = before ++ [p].
Proof.
  intros Hbefore Hp. unfold first_match.
  induction Hbefore as [|q before Hq _ IH]; simpl.
  - by rewrite Hp.
  - rewrite Hq. destruct IH as [-> ->]. done.
Qed.

Lemma first_match_Some (patterns : list DomainPattern) (p : DomainPattern)
    (domain : string) :
  first_match patterns domain = Some p ->
  exists before after,
    patterns = before ++ p :: after /\
    Forall (fun q => RegExp_test (pattern q) domain = false) before /\
    RegExp_test (pattern p) domain = true.
Proof.
  unfold first_match. induction patterns as [|q rest IH]; simpl; [done|].
  destruct (RegExp_test (pattern q) domain) eqn:Hq.
  - intros [= ->]. by exists [], rest.
  - intros Hrest. destruct (IH Hrest) as (before & after & -> & Hb & Hp).
    exists (q :: before), after. repeat split; [|done]. by constructor.
Qed.

(** One tab of [groupAllExistingTabs] whose domain matches a manual
    pattern. *)
Lemma groupAllExistingTabs_body_manual (tab : Tab) (id : Z) (url domain : string)
    (p : DomainPattern) (w : World) :
  tab_url tab = Some url -> tab_id tab = Some id ->
  JS.truthy url = true -> id <> 0 ->
  URL_hostname url = Some domain -> JS.truthy domain = true ->
  first_match (domainPatterns (this w)) domain = Some p ->
  groupAllExistingTabs_body tab w
  = (true, log (tests (domainPatterns (this w)) domain
                  ++ [AddTabToGroup id (groupName p) (color p)]) w).
Proof.
  intros Hurl Hid Htruthy Hnz Hparse Hdom Hfirst.
  unfold groupAllExistingTabs_body.
  rewrite Hurl, Hid, Htruthy, Hparse, Hdom.
  replace (_ =? 0) with false by (symmetry; by apply Z.eqb_neq). simpl.
  unfold bind at 1. unfold get at 1. simpl. unfold bind at 1.
  rewrite find_pattern_spec, Hfirst. unfold_monad. by rewrite <- app_assoc.
Qed.

Lemma tests_no_auto_call (l : list DomainPattern) (domain : string) :
  forallb (fun e => negb (is_auto_call e))
    (map (fun q => RegExpTest (pattern q) domain) l) = true.
Proof. induction l as [|q l IH]; simpl; [done|apply IH]. Qed.

End ManualFirst.

Section Requests.
Context `{Platform}.

Lemma tests_no_request (patterns : list DomainPattern) (domain : string) :
  List.filter is_request (tests patterns domain) = [].
Proof. unfold tests. by induction (tested patterns domain). Qed.

Lemma matches_no_request (patterns : list AutoPattern) (domain : string) :
  List.filter is_request (matches patterns domain) = [].
Proof. unfold matches. by induction (tried patterns domain). Qed.

Lemma first_match_None (patterns : list DomainPattern) (domain : string) :
  Forall (fun q => RegExp_test (pattern q) domain = false) patterns ->
  first_match patterns domain = None.
Proof.
  unfold first_match. induction 1 as [|q rest Hq _ IH]; simpl; [done|].
  by rewrite Hq.
Qed.

(** What [handleTabUpdate] leaves in the URL cache after a miss, and the
    requests it makes: one when the cached name is not empty. *)
Lemma handleTabUpdate_miss_caches (tab : Tab) (id : Z) (url domain : string)
    (w : World) :
  eligible tab id url ->
  processedUrls (this w) !! url = None ->
  URL_hostname url = Some domain ->
  exists cached,
    processedUrls (this (run (handleTabUpdate tab) w)) !! url = Some cached /\
    (JS.truthy cached = true ->
     exists c, List.filter is_request (emitted (handleTabUpdate tab) w)
               = [AddTabToGroup id cached c]).
Proof.
  intros Hel Hmiss Hparse.
  destruct (first_match (domainPatterns (this w)) domain) as [p|] eqn:Hfirst.
  - pose proof (handleTabUpdate_manual tab id url domain p w Hel Hmiss Hparse Hfirst) as Hrun.
    exists (groupName p). unfold run. split.
    + rewrite Hrun; simpl. apply lookup_insert_eq.
    + intros _. exists (color p).
      erewrite emitted_log; [|unfold run; by rewrite Hrun].
      by rewrite List.filter_app, tests_no_request.
  - destruct (enableAutoPatterns (this w)) eqn:Hen;
      [destruct (auto_result (autoPatterns (this w)) domain) as [name|] eqn:Hauto|].
    + pose proof (handleTabUpdate_auto tab id url domain name w
                    Hel Hmiss Hparse Hfirst Hen Hauto) as Hrun.
      exists name. unfold run. split.
      * rewrite Hrun; simpl. apply lookup_insert_eq.
      * intros _. exists None.
        erewrite emitted_log; [|unfold run; by rewrite Hrun].
        by rewrite !List.filter_app, tests_no_request, matches_no_request.
    + pose proof (handleTabUpdate_none tab id url domain w
                    Hel Hmiss Hparse Hfirst (fun _ => Hauto)) as Hrun.
      exists ""%string. unfold run. split; [|done].
      rewrite Hrun; simpl. apply lookup_insert_eq.
    + assert (Hno : enableAutoPatterns (this w) = true ->
                    auto_result (autoPatterns (this w)) domain = None)
        by (rewrite Hen; done).
      pose proof (handleTabUpdate_none tab id url domain w
                    Hel Hmiss Hparse Hfirst Hno) as Hrun.
      exists ""%string. unfold run. split; [|done].
      rewrite Hrun; simpl. apply lookup_insert_eq.
Qed.

End Requests.

(* --------------------------------------------------------------------- *)
(** ** What classification leaves alone *)
(* --------------------------------------------------------------------- *)

Section Frames.
Context `{Platform}.

Lemma same_settings_refl (w : World) : same_settings w w.
Proof. by unfold same_settings. Qed.

Lemma same_settings_trans (a b c : World) :
  same_settings a b -> same_settings b c -> same_settings a c.
Proof.
  unfold same_settings. intros (-> & -> & -> & ->) (-> & -> & -> & ->). done.
Qed.

Lemma keeps_ret {A} (a : A) : keeps same_settings (ret a).
Proof. intros w. apply same_settings_refl. Qed.

Lemma keeps_bind {A B} (c : M A) (k : A -> M B) :
  keeps same_settings c -> (forall a, keeps same_settings (k a)) ->
  keeps same_settings (bind c k).
Proof.
  intros Hc Hk w. unfold run, bind. specialize (Hc w). unfold run in Hc.
  destruct (c w) as [a w1]. simpl in Hc.
  eapply same_settings_trans; [exact Hc|]. apply Hk.
Qed.

Lemma keeps_get : keeps same_settings get.
Proof. intros w. apply same_settings_refl. Qed.

Lemma keeps_emit (e : Event) : keeps same_settings (emit e).
Proof. by intros w. Qed.

Lemma keeps_set_processedUrls (f : TabGroupManager -> gmap string string) :
  keeps same_settings (modify (fun m => set_processedUrls (f m) m)).
Proof. by intros w. Qed.

Lemma keeps_set_autoPatternCache (f : TabGroupManager -> gmap string string) :
  keeps same_settings (modify (fun m => set_autoPatternCache (f m) m)).
Proof. by intros w. Qed.

End Frames.

Ltac keeps_settings :=
  repeat first
    [ apply keeps_ret
    | apply keeps_get
    | apply keeps_emit
    | apply keeps_set_processedUrls
    | apply keeps_set_autoPatternCache
    | apply keeps_bind; [|intros ?]
    | progress unfold test, match_, addTabToGroup
    | match goal with
      | |- keeps _ (match ?x with _ => _ end) => destruct x
      | |- keeps _ (let _ := _ in _) => cbv zeta
      end ].

Section FramesOfMethods.
Context `{Platform}.

Lemma keeps_matchAutoPattern_for (patterns : list AutoPattern) (domain : string) :
  keeps same_settings (matchAutoPattern_for patterns domain).
Proof.
  induction patterns as [|p rest IH]; simpl; keeps_settings; apply IH.
Qed.

Lemma keeps_matchAutoPattern (domain : string) :
  keeps same_settings (matchAutoPattern domain).
Proof.
  unfold matchAutoPattern. keeps_settings. apply keeps_matchAutoPattern_for.
Qed.

Lemma keeps_find_pattern (patterns : list DomainPattern) (domain : string) :
  keeps same_settings (find_pattern patterns domain).
Proof.
  induction patterns as [|p rest IH]; simpl; keeps_settings; apply IH.
Qed.

Lemma keeps_handleTabUpdate_for (id : Z) (url domain : string)
    (patterns : list DomainPattern) :
  keeps same_settings (handleTabUpdate_for id url domain patterns).
Proof.
  induction patterns as [|p rest IH]; simpl; keeps_settings; apply IH.
Qed.

Lemma keeps_handleTabUpdate (tab : Tab) :
  keeps same_settings (handleTabUpdate tab).
Proof.
  unfold handleTabUpdate.
  keeps_settings;
    try apply keeps_handleTabUpdate_for; try apply keeps_matchAutoPattern;
    try apply keeps_matchAutoPattern_for.
Qed.

Lemma keeps_onCreated (tab : Tab) : keeps same_settings (onCreated tab).
Proof. unfold onCreated. keeps_settings. apply keeps_handleTabUpdate. Qed.

Lemma keeps_onUpdated (changedUrl : option string) (tab : Tab) :
  keeps same_settings (onUpdated changedUrl tab).
Proof. unfold onUpdated. keeps_settings. apply keeps_handleTabUpdate. Qed.

Lemma keeps_onActivated (tab : Tab) : keeps same_settings (onActivated tab).
Proof. unfold onActivated. keeps_settings. apply keeps_handleTabUpdate. Qed.

Lemma keeps_applyAutoPattern_for (tabs : list Tab) :
  keeps same_settings (applyAutoPattern_for tabs).
Proof.
  induction tabs as [|tab rest IH]; simpl;
    keeps_settings;
    try apply IH; try apply keeps_find_pattern; try apply keeps_matchAutoPattern;
    try apply keeps_matchAutoPattern_for.
Qed.

Lemma keeps_applyAutoPatternToExistingTabs (tabs : list Tab) :
  keeps same_settings (applyAutoPatternToExistingTabs tabs).
Proof.
  unfold applyAutoPatternToExistingTabs. keeps_settings.
  apply keeps_applyAutoPattern_for.
Qed.

Lemma keeps_applyAutoPatternsToTabs (tabs : list Tab) :
  keeps same_settings (applyAutoPatternsToTabs tabs).
Proof.
  unfold applyAutoPatternsToTabs. keeps_settings.
  apply keeps_applyAutoPattern_for.
Qed.

Lemma keeps_groupAllExistingTabs_body (tab : Tab) :
  keeps same_settings (groupAllExistingTabs_body tab).
Proof.
  unfold groupAllExistingTabs_body.
  keeps_settings;
    try apply keeps_find_pattern; try apply keeps_matchAutoPattern;
    try apply keeps_matchAutoPattern_for.
Qed.

Lemma keeps_groupAllExistingTabs_for (tabs : list Tab) (n : nat) :
  keeps same_settings (groupAllExistingTabs_for tabs n).
Proof.
  revert n; induction tabs as [|tab rest IH]; intros n; simpl; keeps_settings.
  - apply keeps_groupAllExistingTabs_body.
  - apply IH.
Qed.

End FramesOfMethods.

(* --------------------------------------------------------------------- *)
(** ** The mutators *)
(* --------------------------------------------------------------------- *)

Section Strings.

(** [indexOf] is [-1] exactly when [includes] is false. *)
Lemma indexOf_from_found (i : Z) (s p : string) :
  JS.includes s p = true -> i <= JS.indexOf_from i s p.
Proof.
  revert i; induction s as [|a s IH]; intros i;
    cbn [JS.includes JS.indexOf_from].
  - destruct (String.prefix p ""); [lia|done].
  - destruct (String.prefix p (String a s)); [lia|].
    intros Hin. specialize (IH (i + 1) Hin). lia.
Qed.

Lemma indexOf_from_absent (i : Z) (s p : string) :
  JS.includes s p = false -> JS.indexOf_from i s p = -1.
Proof.
  revert i; induction s as [|a s IH]; intros i;
    cbn [JS.includes JS.indexOf_from].
  - by destruct (String.prefix p "").
  - destruct (String.prefix p (String a s)); [done|]. apply IH.
Qed.

Lemma indexOf_includes (s p : string) :
  JS.indexOf s p = -1 <-> JS.includes s p = false.
Proof.
  split.
  - intros Hidx. destruct (JS.includes s p) eqn:Hin; [|done].
    pose proof (indexOf_from_found 0 s p Hin). unfold JS.indexOf in Hidx. lia.
  - apply indexOf_from_absent.
Qed.

End Strings.

Section Mutators.
Context `{Platform}.

Lemma createAutoPattern_without_name (t : string) :
  JS.includes t ":name" = false -> createAutoPattern t = None.
Proof.
  intros Hin. unfold createAutoPattern.
  apply indexOf_includes in Hin. by rewrite Hin.
Qed.

Lemma createAutoPattern_template (t : string) (p : AutoPattern) :
  createAutoPattern t = Some p -> template p = t /\ namePosition p = 1%nat.
Proof.
  unfold createAutoPattern. destruct (_ =? -1); [done|].
  destruct (RegExp_new _); [|done]. by intros [= <-].
Qed.

Lemma some_template (t : string) (patterns : list AutoPattern) :
  existsb (fun p => String.eqb (template p) t) patterns = true
  <-> t ∈ map template patterns.
Proof.
  induction patterns as [|p rest IH]; simpl.
  - split; [done|]. by intros ?%not_elem_of_nil.
  - rewrite orb_true_iff, IH, elem_of_cons, String.eqb_eq.
    split; (intros [Heq|Hin]; [by left|by right]).
Qed.

Lemma includes_template_elem (templates : list string) (t : string) :
  includes_template templates t = true <-> t ∈ templates.
Proof.
  unfold includes_template. induction templates as [|a rest IH]; simpl.
  - split; [done|]. by intros ?%not_elem_of_nil.
  - by rewrite orb_true_iff, IH, elem_of_cons, String.eqb_eq.
Qed.

(** The four ways [addAutoPattern] ends. *)
Lemma addAutoPattern_invalid (t : string) (w : World) :
  JS.includes t ":name" = false -> addAutoPattern t w = (false, w).
Proof. intros Hin. unfold addAutoPattern. by rewrite Hin. Qed.

Lemma addAutoPattern_duplicate (t : string) (w : World) :
  t ∈ templates_of (this w) -> addAutoPattern t w = (false, w).
Proof.
  intros Hdup. unfold addAutoPattern.
  destruct (JS.includes t ":name"); simpl; [|done].
  unfold_monad. apply some_template in Hdup. by rewrite Hdup.
Qed.

Lemma addAutoPattern_rejected_by_engine (t : string) (w : World) :
  createAutoPattern t = None -> addAutoPattern t w = (false, w).
Proof.
  intros Hnone. unfold addAutoPattern.
  destruct (JS.includes t ":name"); simpl; [|done].
  unfold_monad. rewrite Hnone. by destruct (existsb _ _).
Qed.

Lemma addAutoPattern_added (t : string) (p : AutoPattern) (w : World) :
  t ∉ templates_of (this w) ->
  createAutoPattern t = Some p ->
  addAutoPattern t w
  = (true,
     {| this := set_processedUrls ∅
                  (set_autoPatterns (autoPatterns (this w) ++ [p]) (this w));
        local :=
          {| stored_domainPatterns := stored_domainPatterns (local w);
             stored_enableAutoPatterns := Some (enableAutoPatterns (this w));
             stored_autoPatterns :=
               Some (map (fun p => {| stored_template := template p;
                                      regexStr := RegExp_source (regex p);
                                      stored_namePosition := namePosition p |})
                         (autoPatterns (this w) ++ [p])) |};
        events := events w |}).
Proof.
  intros Hfresh Hcreate. unfold addAutoPattern.
  destruct (JS.includes t ":name") eqn:Hin; simpl.
  - unfold_monad.
    destruct (existsb _ _) eqn:Hex; [by apply some_template in Hex|].
    by rewrite Hcreate.
  - by rewrite createAutoPattern_without_name in Hcreate.
Qed.

(** The two ways [addPattern] ends. *)
Lemma addPattern_invalid (src name : string) (c : option ColorEnum) (w : World) :
  RegExp_new src = None -> addPattern src name c w = (tt, w).
Proof. intros Hnew. unfold addPattern. by rewrite Hnew. Qed.

Lemma addPattern_added (src name : string) (c : option ColorEnum)
    (r : RegExp) (w : World) :
  RegExp_new src = Some r ->
  let patterns :=
    domainPatterns (this w) ++ [{| pattern := r; groupName := name; color := c |}] in
  addPattern src name c w
  = (tt,
     {| this := set_processedUrls ∅ (set_domainPatterns patterns (this w));
        local :=
          {| stored_domainPatterns :=
               Some (map (fun p => {| patternStr := RegExp_source (pattern p);
                                      stored_groupName := groupName p;
                                      stored_color := color p |}) patterns);
             stored_enableAutoPatterns := stored_enableAutoPatterns (local w);
             stored_autoPatterns := stored_autoPatterns (local w) |};
        events := events w |}).
Proof. intros Hnew patterns. unfold addPattern. by rewrite Hnew. Qed.

End Mutators.

Section MoreMutators.
Context `{Platform}.

Lemma stored_of_templates (patterns : list AutoPattern) :
  map stored_template (stored_of patterns) = map template patterns.
Proof. unfold stored_of. rewrite map_map. done. Qed.

Lemma filter_all {A} (f : A -> bool) (l : list A) :
  length (List.filter f l) = length l -> List.filter f l = l.
Proof.
  induction l as [|a l IH]; simpl; [done|].
  destruct (f a); simpl.
  - intros [= Hlen]. by rewrite IH.
  - intros Hlen. pose proof (List.filter_length_le f l). lia.
Qed.

(** The two ways [removeAutoPattern] ends. *)
Lemma removeAutoPattern_spec (t : string) (w : World) :
  let kept := List.filter (fun p => negb (String.eqb (template p) t))
                (autoPatterns (this w)) in
  removeAutoPattern t w
  = if (length kept <? length (autoPatterns (this w)))%nat
    then (true,
          {| this := set_autoPatternCache ∅
                       (set_processedUrls ∅ (set_autoPatterns kept (this w)));
             local :=
               {| stored_domainPatterns := stored_domainPatterns (local w);
                  stored_enableAutoPatterns := Some (enableAutoPatterns (this w));
                  stored_autoPatterns := Some (stored_of kept) |};
             events := events w |})
    else (false, w).
Proof.
  intros kept. unfold removeAutoPattern. unfold_monad. fold kept.
  destruct (length kept <? length (autoPatterns (this w)))%nat eqn:Hlt; [done|].
  apply Nat.ltb_ge in Hlt.
  pose proof (List.filter_length_le
                (fun p => negb (String.eqb (template p) t)) (autoPatterns (this w))) as Hle.
  fold kept in Hle.
  assert (Hsame : kept = autoPatterns (this w)) by (apply filter_all; fold kept; lia).
  rewrite Hsame. by destruct w as [[] ? ?].
Qed.

Lemma setAutoPatterns_spec (enabled : bool) (w : World) :
  setAutoPatterns enabled w
  = (tt,
     {| this := set_processedUrls ∅ (set_enableAutoPatterns enabled (this w));
        local :=
          {| stored_domainPatterns := stored_domainPatterns (local w);
             stored_enableAutoPatterns := Some enabled;
             stored_autoPatterns := Some (stored_of (autoPatterns (this w))) |};
        events := events w |}).
Proof. done. Qed.

Lemma filter_templates_NoDup (f : AutoPattern -> bool) (patterns : list AutoPattern) :
  NoDup (map template patterns) -> NoDup (map template (List.filter f patterns)).
Proof.
  induction patterns as [|p rest IH]; simpl; [done|].
  rewrite NoDup_cons. intros [Hnotin Hrest].
  destruct (f p); simpl; [|by apply IH].
  apply NoDup_cons. split; [|by apply IH].
  intros Hin. apply Hnotin.
  apply list_elem_of_In, in_map_iff in Hin. destruct Hin as (q & Hq & Hqin).
  apply List.filter_In in Hqin. destruct Hqin as [Hqin _].
  apply list_elem_of_In, in_map_iff. by exists q.
Qed.

Lemma loadAutoPattern_templates (stored : list StoredAutoPattern)
    (patterns : list AutoPattern) :
  mapM loadAutoPattern stored = Some patterns ->
  map template patterns = map stored_template stored.
Proof.
  intros Hload. apply mapM_Some_1 in Hload.
  induction Hload as [|s p stored patterns Hsp _ IH]; simpl; [done|].
  rewrite IH. f_equal. unfold loadAutoPattern in Hsp.
  destruct (RegExp_new (regexStr s)); simpl in Hsp; [|done]. by injection Hsp as <-.
Qed.

End MoreMutators.

(* --------------------------------------------------------------------- *)
(** ** No template twice *)
(* --------------------------------------------------------------------- *)

Section Distinct.
Context `{Platform}.
Local Arguments mapM : simpl never.

Lemma templates_distinct_same_settings (w w' : World) :
  same_settings w w' -> templates_distinct w -> templates_distinct w'.
Proof.
  unfold same_settings, templates_distinct, templates_of.
  by intros (_ & _ & -> & ->).
Qed.

Lemma createAutoPattern_default_template (p : AutoPattern) :
  createAutoPattern ":name.*" = Some p -> map template [p] = [":name.*"%string].
Proof. intros Hp. apply createAutoPattern_template in Hp as [Ht _]. simpl. by rewrite Ht. Qed.

(** What loading leaves as the list of templates. *)
Lemma loadPatternsFromStorage_templates (w : World) :
  let w' := run loadPatternsFromStorage w in
  local w' = local w /\
  (templates_of (this w') = templates_of (this w) \/
   templates_of (this w') = [":name.*"%string] \/
   exists stored, stored_autoPatterns (local w) = Some stored /\
                  templates_of (this w') = map stored_template stored).
Proof.
  unfold loadPatternsFromStorage, storageCallback, templates_of.
  unfold_monad.
  destruct (createAutoPattern ":name.*") as [dflt|] eqn:Hdflt; simpl; [|by auto].
  apply createAutoPattern_template in Hdflt as [Hd _].
  assert (Hload : forall stored loaded,
            mapM loadAutoPattern stored = Some loaded ->
            map template loaded = map stored_template stored)
    by apply loadAutoPattern_templates.
  destruct (stored_domainPatterns (local w)) as [sd|]; simpl;
    [destruct (mapM loadDomainPattern sd); simpl|];
    try (destruct (stored_enableAutoPatterns (local w)); simpl);
    try (destruct (stored_autoPatterns (local w)) as [[|s stored]|] eqn:Hsa; simpl);
    try (destruct (mapM loadAutoPattern (s :: stored)) as [loaded|] eqn:Hl; simpl);
    (split; [reflexivity|]);
    first [ right; left; by rewrite Hd
          | right; right; exists (s :: stored); split; [done|]; by apply Hload ].
Qed.

Lemma loadPatternsFromStorage_distinct (w : World) :
  templates_distinct w -> templates_distinct (run loadPatternsFromStorage w).
Proof.
  intros [Hmgr Hstored].
  destruct (loadPatternsFromStorage_templates w) as [Hlocal Hcases].
  unfold templates_distinct. rewrite Hlocal. split; [|done].
  destruct Hcases as [-> | [-> | (stored & Hs & ->)]].
  - done.
  - apply NoDup_singleton.
  - by rewrite Hs in Hstored.
Qed.

Lemma addAutoPattern_distinct (t : string) (w : World) :
  templates_distinct w -> templates_distinct (run (addAutoPattern t) w).
Proof.
  intros Hd. unfold run.
  destruct (decide (t ∈ templates_of (this w))) as [Hin|Hfresh].
  - by rewrite addAutoPattern_duplicate.
  - destruct (createAutoPattern t) as [p|] eqn:Hcreate.
    + rewrite (addAutoPattern_added t p w Hfresh Hcreate); simpl.
      apply createAutoPattern_template in Hcreate as [Ht _].
      assert (Hnew : NoDup (map template (autoPatterns (this w) ++ [p]))).
      { rewrite map_app; simpl. rewrite Ht. apply NoDup_app.
        destruct Hd as [Hd _]. repeat split; [done| |apply NoDup_singleton].
        intros x Hx ->%list_elem_of_singleton. by apply Hfresh. }
      split; simpl; [done|]. by rewrite map_map.
    + by rewrite addAutoPattern_rejected_by_engine.
Qed.

Lemma removeAutoPattern_distinct (t : string) (w : World) :
  templates_distinct w -> templates_distinct (run (removeAutoPattern t) w).
Proof.
  intros Hd. unfold run. rewrite removeAutoPattern_spec.
  destruct (_ <? _)%nat; simpl; [|done].
  destruct Hd as [Hd _].
  assert (NoDup (map template
            (List.filter (fun p => negb (String.eqb (template p) t))
               (autoPatterns (this w)))))
    by (by apply filter_templates_NoDup).
  split; simpl; [done|]. by rewrite stored_of_templates.
Qed.

Lemma setAutoPatterns_distinct (enabled : bool) (w : World) :
  templates_distinct w -> templates_distinct (run (setAutoPatterns enabled) w).
Proof.
  intros [Hd _]. unfold run. rewrite setAutoPatterns_spec.
  split; simpl; [done|]. by rewrite stored_of_templates.
Qed.

Lemma addPattern_distinct (src name : string) (c : option ColorEnum) (w : World) :
  templates_distinct w -> templates_distinct (run (addPattern src name c) w).
Proof.
  intros Hd. unfold run.
  destruct (RegExp_new src) as [r|] eqn:Hnew.
  - by rewrite (addPattern_added src name c r w Hnew).
  - by rewrite addPattern_invalid.
Qed.

Lemma bind_run {A B} (c : M A) (k : A -> M B) (w : World) :
  run (bind c k) w = run (k (fst (c w))) (run c w).
Proof. unfold run, bind. by destruct (c w). Qed.

Lemma onMessage_distinct (message : Message) (w : World) :
  templates_distinct w -> templates_distinct (run (onMessage message) w).
Proof.
  intros Hd. destruct message; simpl; try done.
  - destruct (_ || _); [done|].
    rewrite bind_run. by apply addAutoPattern_distinct.
  - rewrite bind_run. by apply addPattern_distinct.
  - rewrite bind_run.
    assert (Hl := loadPatternsFromStorage_distinct w Hd).
    unfold refreshPatterns. by destruct (fst (loadPatternsFromStorage w)).
  - rewrite bind_run. by apply setAutoPatterns_distinct.
  - rewrite bind_run. by apply removeAutoPattern_distinct.
Qed.

Lemma step_distinct (w w' : World) :
  step w w' -> templates_distinct w -> templates_distinct w'.
Proof.
  intros Hstep Hd. destruct Hstep.
  - eapply templates_distinct_same_settings; [apply keeps_onCreated|done].
  - eapply templates_distinct_same_settings; [apply keeps_onUpdated|done].
  - eapply templates_distinct_same_settings; [apply keeps_onActivated|done].
  - eapply templates_distinct_same_settings; [apply keeps_handleTabUpdate|done].
  - eapply templates_distinct_same_settings; [|done].
    apply keeps_groupAllExistingTabs_for.
  - eapply templates_distinct_same_settings; [|done].
    apply keeps_applyAutoPatternToExistingTabs.
  - eapply templates_distinct_same_settings; [|done].
    apply keeps_applyAutoPatternsToTabs.
  - by apply onMessage_distinct.
  - done.
  - apply loadPatternsFromStorage_distinct. destruct Hd as [_ Hd].
    split; [apply NoDup_nil_2|done].
Qed.

Lemma reachable_distinct (w : World) : reachable w -> templates_distinct w.
Proof.
  induction 1 as [|w w' _ IH Hstep].
  - apply loadPatternsFromStorage_distinct. split; [apply NoDup_nil_2|done].
  - by eapply step_distinct.
Qed.

End Distinct.

(* --------------------------------------------------------------------- *)
(** ** Saving and loading the auto-patterns *)
(* --------------------------------------------------------------------- *)

Section RoundTrip.
Context `{Platform}.
Local Arguments mapM : simpl never.

Hypothesis source_round_trip : forall r, RegExp_new (RegExp_source r) = Some r.

Lemma loadAutoPattern_stored_of (patterns : list AutoPattern) :
  mapM loadAutoPattern (stored_of patterns) = Some patterns.
Proof.
  apply mapM_Some_2. unfold stored_of.
  induction patterns as [|p rest IH]; simpl; constructor; [|done].
  unfold loadAutoPattern; simpl. rewrite source_round_trip. by destruct p.
Qed.

Lemma loadPatternsFromStorage_saved (w : World) :
  settings_saved w ->
  autoPatterns (this w) <> [] ->
  (forall sd, stored_domainPatterns (local w) = Some sd ->
              is_Some (mapM loadDomainPattern sd)) ->
  autoPatterns (this (run loadPatternsFromStorage w)) = autoPatterns (this w) /\
  enableAutoPatterns (this (run loadPatternsFromStorage w))
  = enableAutoPatterns (this w).
Proof.
  intros [Hauto Hflag] Hne Hmanual.
  unfold loadPatternsFromStorage, storageCallback. unfold_monad.
  destruct (createAutoPattern ":name.*") as [dflt|]; simpl; [|done].
  rewrite Hauto, Hflag.
  assert (Hload := loadAutoPattern_stored_of (autoPatterns (this w))).
  destruct (stored_domainPatterns (local w)) as [sd|] eqn:Hsd; simpl.
  - destruct (Hmanual sd eq_refl) as [loaded ->]; simpl.
    destruct (stored_of (autoPatterns (this w))) as [|s rest] eqn:Hs; simpl.
    + unfold stored_of in Hs. by destruct (autoPatterns (this w)).
    + by rewrite Hload.
  - destruct (stored_of (autoPatterns (this w))) as [|s rest] eqn:Hs; simpl.
    + unfold stored_of in Hs. by destruct (autoPatterns (this w)).
    + by rewrite Hload.
Qed.

End RoundTrip.

(* --------------------------------------------------------------------- *)
(** ** The domain cache under the mutators *)
(* --------------------------------------------------------------------- *)

Section Coherence.
Context `{Platform}.

Lemma cache_coherent_app (m : TabGroupManager) (more : list AutoPattern) :
  cache_coherent m ->
  cache_coherent
    (set_processedUrls ∅ (set_autoPatterns (autoPatterns m ++ more) m)).
Proof.
  unfold cache_coherent; simpl. intros Hc domain name Hhit.
  apply auto_result_app. by apply Hc.
Qed.

(** A tab that [handleTabUpdate] skips leaves the world as it is. *)
Lemma handleTabUpdate_skips_or_eligible (tab : Tab) (w : World) :
  handleTabUpdate tab w = (tt, w) \/ exists id url, eligible tab id url.
Proof.
  unfold handleTabUpdate, eligible.
  destruct (tab_groupId tab =? TAB_GROUP_ID_NONE) eqn:Hg; simpl; [|by left].
  apply Z.eqb_eq in Hg.
  destruct (tab_url tab) as [url|]; [|by left].
  destruct (tab_id tab) as [id|]; [|by left].
  destruct (JS.truthy url) eqn:Ht; simpl; [|by left].
  destruct (id =? 0) eqn:Hz; simpl; [by left|]. apply Z.eqb_neq in Hz.
  destruct (JS.startsWith url "chrome://") eqn:Hc; simpl; [by left|].
  destruct (JS.startsWith url "brave://") eqn:Hb; simpl; [by left|].
  right. by exists id, url.
Qed.

(** The entries that [handleTabUpdate] writes into the domain cache are
    results of the auto-patterns. *)
Lemma handleTabUpdate_coherent (tab : Tab) (w : World) :
  cache_coherent (this w) -> cache_coherent (this (run (handleTabUpdate tab) w)).
Proof.
  intros Hc. unfold run.
  destruct (handleTabUpdate_skips_or_eligible tab w) as [->|(id & url & Hel)]; [done|].
  destruct (processedUrls (this w) !! url) as [cached|] eqn:Hlook.
  { by rewrite (handleTabUpdate_hit tab id url cached w Hel Hlook). }
  destruct (URL_hostname url) as [domain|] eqn:Hparse;
    [|by rewrite (handleTabUpdate_invalid_url tab id url w Hel Hlook Hparse)].
  destruct (first_match (domainPatterns (this w)) domain) as [p|] eqn:Hfirst.
  { by rewrite (handleTabUpdate_manual tab id url domain p w Hel Hlook Hparse Hfirst). }
  destruct (enableAutoPatterns (this w)) eqn:Hen;
    [destruct (auto_result (autoPatterns (this w)) domain) as [name|] eqn:Hauto|].
  - rewrite (handleTabUpdate_auto tab id url domain name w
               Hel Hlook Hparse Hfirst Hen Hauto); simpl.
    intros d g; simpl. rewrite lookup_insert.
    case_decide as Hd; [|by apply Hc]. subst d. by intros [= <-].
  - by rewrite (handleTabUpdate_none tab id url domain w
                  Hel Hlook Hparse Hfirst (fun _ => Hauto)).
  - rewrite (handleTabUpdate_none tab id url domain w Hel Hlook Hparse Hfirst);
      [done|by rewrite Hen].
Qed.

End Coherence.

(* --------------------------------------------------------------------- *)
(** ** The matcher of the concrete platform *)
(* --------------------------------------------------------------------- *)

Section HostMatcher.
Import Host.

Lemma first_some_Some {A B} (f : A -> option B) (l : list A) (b : B) :
  first_some f l = Some b -> exists a, a ∈ l /\ f a = Some b.
Proof.
  induction l as [|a l IH]; simpl; [done|].
  destruct (f a) as [b'|] eqn:Hfa.
  - intros [= <-]. exists a. split; [apply list_elem_of_here|done].
  - intros Hrest. destruct (IH Hrest) as (a' & Hin & Hfa').
    exists a'. split; [by apply list_elem_of_further|done].
Qed.

Lemma first_some_is_Some {A B} (f : A -> option B) (l : list A) (a : A) :
  a ∈ l -> is_Some (f a) -> is_Some (first_some f l).
Proof.
  induction l as [|a' l IH]; simpl.
  - by intros ?%not_elem_of_nil.
  - intros [->|Hin]%elem_of_cons Hsome.
    + destruct Hsome as [b ->]. by exists b.
    + destruct (f a'); [by eexists|]. by apply IH.
Qed.

(** The splits are the ways to read a label at the head of the string. *)
Lemma labelSplits_sound (s pre post : string) :
  (pre, post) ∈ labelSplits s ->
  s = String.append pre post /\ isLabel pre = true.
Proof.
  revert pre post; induction s as [|c s IH]; intros pre post; simpl.
  - by intros ?%not_elem_of_nil.
  - destruct (Ascii.eqb c ".") eqn:Hc; [by intros ?%not_elem_of_nil|].
    intros [Hin|Hin]%elem_of_app.
    + apply list_elem_of_fmap in Hin as ([pre' post'] & [= -> ->] & Hin).
      destruct (IH _ _ Hin) as [-> Hlabel]. simpl. split; [done|].
      unfold isLabel in *; simpl. rewrite Hc; simpl.
      by apply andb_true_iff in Hlabel as [_ ->].
    + apply list_elem_of_singleton in Hin as [= -> ->]. simpl. split; [done|].
      unfold isLabel; simpl. by rewrite Hc.
Qed.

Lemma labelSplits_complete (l s : string) :
  isLabel l = true -> (l, s) ∈ labelSplits (String.append l s).
Proof.
  unfold isLabel. destruct l as [|c l]; simpl; [done|].
  revert c; induction l as [|c' l IH]; intros c; simpl.
  - rewrite andb_true_r. intros Hc%negb_true_iff. rewrite Hc.
    apply elem_of_app. right. apply list_elem_of_here.
  - intros (Hc%negb_true_iff & Hrest)%andb_true_iff. rewrite Hc.
    apply elem_of_app. left.
    apply list_elem_of_fmap. exists (String c' l, s). split; [done|].
    by apply IH.
Qed.

(** [matchAtoms] on a pattern that ends with [$] finds a reading of the
    whole string, and finds one whenever there is one. *)
Lemma matchAtoms_sound (ats : list Atom) (s : string) (caps : list string)
    (txt : string) :
  matchAtoms ats true s = Some (caps, txt) -> Matches ats s caps /\ txt = s.
Proof.
  revert s caps txt; induction ats as [|a rest IH]; intros s caps txt; simpl.
  - destruct s; [|done]. intros [= <- <-]. split; [constructor|done].
  - destruct a as [c| |capture].
    + destruct s as [|a s]; [done|].
      destruct (Ascii.eqb a c) eqn:Hac; [|done].
      apply Ascii.eqb_eq in Hac as ->.
      destruct (matchAtoms rest true s) as [[caps' txt']|] eqn:Hrest; [|done].
      simpl. intros [= <- <-].
      destruct (IH _ _ _ Hrest) as [Hm ->]. split; [by constructor|done].
    + destruct s as [|a s]; [done|].
      destruct (lineTerminator a) eqn:Hlt; [done|].
      destruct (matchAtoms rest true s) as [[caps' txt']|] eqn:Hrest; [|done].
      simpl. intros [= <- <-].
      destruct (IH _ _ _ Hrest) as [Hm ->]. split; [by constructor|done].
    + intros Hfirst. apply first_some_Some in Hfirst as ([pre post] & Hin & Hf).
      simpl in Hf.
      destruct (matchAtoms rest true post) as [[caps' txt']|] eqn:Hrest; [|done].
      simpl in Hf. injection Hf as <- <-.
      destruct (IH _ _ _ Hrest) as [Hm ->].
      destruct (labelSplits_sound _ _ _ Hin) as [-> Hlabel].
      split; [by constructor|done].
Qed.

Lemma matchAtoms_complete (ats : list Atom) (s : string) (caps : list string) :
  Matches ats s caps -> is_Some (matchAtoms ats true s).
Proof.
  induction 1 as [|c rest s caps _ IH|c rest s caps Hlt _ IH
                  |capture rest l s caps Hlabel _ IH]; simpl.
  - by eexists.
  - rewrite Ascii.eqb_refl. destruct IH as [r ->]. by eexists.
  - rewrite Hlt. destruct IH as [r ->]. by eexists.
  - eapply first_some_is_Some; [by apply labelSplits_complete|].
    simpl. destruct IH as [r ->]. by eexists.
Qed.

(** A label is followed by a dot in one way only. *)
Lemma label_dot_unique (l l' s s' : string) :
  isLabel l = true -> isLabel l' = true ->
  String.append l (String "." s) = String.append l' (String "." s') ->
  l = l' /\ s = s'.
Proof.
  unfold isLabel. intros (_ & Hl)%andb_true_iff (_ & Hl')%andb_true_iff.
  revert l' Hl'; induction l as [|c l IH]; intros [|c' l'] Hl'; simpl in *.
  - by intros [= ->].
  - intros [= <- _]. by apply andb_true_iff in Hl' as [? _].
  - intros [= -> _]. by apply andb_true_iff in Hl as [? _].
  - intros [= -> Heq].
    apply andb_true_iff in Hl as [_ Hl]. apply andb_true_iff in Hl' as [_ Hl'].
    destruct (IH Hl l' Hl' Heq) as [-> ->]. done.
Qed.

End HostMatcher.

Section HostCaptures.
Import Host.
#[local] Existing Instance Host.platform.

Lemma Matches_lits (lit s : string) (caps : list string) :
  Matches (lits lit) s caps <-> s = lit /\ caps = [].
Proof.
  split.
  - revert s; induction lit as [|c lit IH]; intros s; simpl;
      inversion 1 as [|c' rest s' caps' Hrest| |]; subst.
    + done.
    + destruct (IH _ Hrest) as [-> ->]. done.
  - intros [-> ->]. induction lit as [|c lit IH]; simpl; by constructor.
Qed.

(** The name that an auto-pattern with an anchored pattern and name
    position 1 captures: the first capture of [matchAtoms]. *)
Lemma captured_anchored (p : AutoPattern) (ats : list Atom) (domain : string) :
  parse (source (regex p))
  = Some {| fromStart := true; atoms := ats; toEnd := true |} ->
  namePosition p = 1%nat ->
  captured p domain
  = match matchAtoms ats true domain with
    | Some (name :: _, _) => if JS.truthy name then Some name else None
    | _ => None
    end.
Proof.
  intros Hparse Hpos. unfold captured. rewrite Hpos. simpl.
  unfold match_string. rewrite Hparse. unfold exec; simpl.
  destruct (matchAtoms ats true domain) as [[[|name caps] txt]|]; done.
Qed.

(** When every reading of a pattern has a label as its first capture,
    and that label is the same in all readings of a string, the pattern
    captures exactly the first labels of its readings. *)
Lemma captured_reading (p : AutoPattern) (ats : list Atom)
    (domain name : string) :
  parse (source (regex p))
  = Some {| fromStart := true; atoms := ats; toEnd := true |} ->
  namePosition p = 1%nat ->
  (forall caps, Matches ats domain caps ->
                exists n rest, caps = n :: rest /\ isLabel n = true) ->
  (forall n rest n' rest',
     Matches ats domain (n :: rest) -> Matches ats domain (n' :: rest') -> n = n') ->
  captured p domain = Some name <-> exists rest, Matches ats domain (name :: rest).
Proof.
  intros Hparse Hpos Hshape Hdet.
  rewrite (captured_anchored p ats domain Hparse Hpos).
  split.
  - destruct (matchAtoms ats true domain) as [[[|n caps] txt]|] eqn:Hm; try done.
    destruct (JS.truthy n); [|done]. intros [= ->].
    apply matchAtoms_sound in Hm as [Hm _]. by exists caps.
  - intros [rest Hreading].
    destruct (matchAtoms_complete _ _ _ Hreading) as [[caps txt] Hm].
    rewrite Hm. apply matchAtoms_sound in Hm as [Hm _].
    destruct (Hshape _ Hm) as (n & rest' & -> & Hlabel).
    rewrite (Hdet _ _ _ _ Hm Hreading).
    rewrite (Hdet _ _ _ _ Hm Hreading) in Hlabel.
    unfold isLabel in Hlabel. by apply andb_true_iff in Hlabel as [-> _].
Qed.

(** The readings of the two compiled templates. *)
Lemma readings_name_example_com (domain : string) (caps : list string) :
  Matches (Label true :: lits ".example.com") domain caps
  <-> exists name, isLabel name = true /\
                   domain = String.append name ".example.com" /\ caps = [name].
Proof.
  split.
  - inversion 1 as [| | |capture rest l s caps' Hlabel Hrest]; subst.
    apply (Matches_lits ".example.com") in Hrest as [-> ->]. by exists l.
  - intros (name & Hlabel & -> & ->).
    apply (Matches_Label true _ name ".example.com" []); [done|].
    by apply Matches_lits.
Qed.


End HostCaptures.

Section SinglePattern.
Context `{Platform}.

Lemma auto_result_single (p : AutoPattern) (domain g : string) :
  auto_result [p] domain = Some g
  <-> exists name, captured p domain = Some name /\ g = JS.capitalize name.
Proof.
  simpl. destruct (captured p domain) as [n|]; split.
  - intros [= <-]. by exists n.
  - by intros (name & [= <-] & ->).
  - done.
  - by intros (name & ? & _).
Qed.

End SinglePattern.

(* ===================================================================== *)
(** * The classifier: manual patterns before auto-patterns *)
(* ===================================================================== *)

Section Precedence.
Context `{Platform}.

(** C1. Whatever the configuration and the caches, when a manual pattern
    matches the domain, classification uses the first one that matches
    in list order: [handleTabUpdate] (on a URL that is not cached) and
    [groupAllExistingTabs] test the manual patterns up to that one,
    request the group of its name with its color, and make no call for
    an auto-pattern, whether one would match or not. *)
Theorem manual_match_wins
    (w : World) (tab : Tab) (id : Z) (url domain : string)
    (before after : list DomainPattern) (p : DomainPattern) :
  eligible tab id url ->
  URL_hostname url = Some domain ->
  domainPatterns (this w) = before ++ p :: after ->
  Forall (fun q => RegExp_test (pattern q) domain = false) before ->
  RegExp_test (pattern p) domain = true ->
  let lookups := map (fun q => RegExpTest (pattern q) domain) (before ++ [p]) in
  let request := AddTabToGroup id (groupName p) (color p) in
  (processedUrls (this w) !! url = None ->
   emitted (handleTabUpdate tab) w = lookups ++ [request] /\
   forallb (fun e => negb (is_auto_call e)) (emitted (handleTabUpdate tab) w) = true /\
   processedUrls (this (run (handleTabUpdate tab) w)) !! url = Some (groupName p) /\
   autoPatternCache (this (run (handleTabUpdate tab) w)) = autoPatternCache (this w))
  /\
  (JS.includes url "chrome://" = false -> JS.includes url "brave://" = false ->
   JS.truthy domain = true ->
   groupAllExistingTabs [tab] w = (1%nat, log (lookups ++ [request]) w) /\
   forallb (fun e => negb (is_auto_call e)) (lookups ++ [request]) = true).
Proof.
  intros Hel Hparse Hsplit Hbefore Hp lookups request.
  destruct (first_match_split before after p domain Hbefore Hp) as [Hfirst Htested].
  rewrite <- Hsplit in Hfirst, Htested.
  assert (Hlook : tests (domainPatterns (this w)) domain = lookups)
    by (unfold tests; by rewrite Htested).
  assert (Hno : forallb (fun e => negb (is_auto_call e)) (lookups ++ [request]) = true).
  { rewrite forallb_app. apply andb_true_iff; split; [|done].
    apply tests_no_auto_call. }
  split.
  - intros Hmiss.
    pose proof (handleTabUpdate_manual tab id url domain p w Hel Hmiss Hparse Hfirst) as Hrun.
    assert (Hem : emitted (handleTabUpdate tab) w = lookups ++ [request]).
    { apply emitted_log. unfold run. rewrite Hrun; simpl. by rewrite Hlook. }
    rewrite Hem. unfold run. rewrite Hrun; simpl.
    repeat split; [done|]. apply lookup_insert_eq.
  - intros Hchrome Hbrave Hdom. split; [|done].
    destruct Hel as (Hgroup & Hurl & Hid & Htruthy & Hnz & _ & _).
    unfold groupAllExistingTabs, ungrouped; simpl.
    rewrite Hgroup, Hurl, Htruthy, Hchrome, Hbrave; simpl.
    unfold bind at 1.
    rewrite (groupAllExistingTabs_body_manual tab id url domain p w); try done.
    by rewrite Hlook.
Qed.

End Precedence.

(** On the concrete platform: the manual pattern of GitHub and the
    default auto-pattern both match [github.com], and disagree on the
    name. *)
Lemma manual_match_wins_witness :
  let tab := Examples.tab 7 "https://github.com/" in
  let lookup := RegExpTest (pattern Examples.github) "github.com" in
  let request := AddTabToGroup 7 "GitHub" (Some "blue") in
  emitted (handleTabUpdate tab) Examples.with_github = [lookup; request] /\
  groupAllExistingTabs [tab] Examples.with_github
  = (1%nat, log [lookup; request] Examples.with_github) /\
  auto_result (autoPatterns (this Examples.with_github)) "github.com" = Some "Github".
Proof.
  intros tab lookup request.
  destruct (manual_match_wins (H := Host.platform)
              Examples.with_github tab 7
              "https://github.com/" "github.com" [] [] Examples.github)
    as [Hhandle Hbulk].
  - unfold eligible; repeat split; try reflexivity; lia.
  - reflexivity.
  - reflexivity.
  - constructor.
  - reflexivity.
  - split; [|split].
    + apply Hhandle. reflexivity.
    + apply Hbulk; reflexivity.
    + reflexivity.
Defined.

(* ===================================================================== *)
(** * The URL cache *)
(* ===================================================================== *)

Section UrlCache.
Context `{Platform}.

(** C3, as the code has it. After [handleTabUpdate] has classified the
    URL of a tab, a second call for the same tab, with nothing changed,
    is a cache hit: it calls no regular expression and changes neither
    the manager nor the storage.  It does repeat the request for the
    cached group name, without a color, when that name is not empty: the
    two calls then make two requests.  Only for a tab that the browser
    reports as being in a group does a call do nothing. *)
Theorem second_call_hits_cache_and_repeats_request
    (w : World) (tab : Tab) (id : Z) (url domain : string) :
  eligible tab id url ->
  processedUrls (this w) !! url = None ->
  URL_hostname url = Some domain ->
  let call := handleTabUpdate tab in
  let w1 := run call w in
  exists cached,
    processedUrls (this w1) !! url = Some cached /\
    this (run call w1) = this w1 /\
    local (run call w1) = local w1 /\
    emitted call w1
      = (if JS.truthy cached then [AddTabToGroup id cached None] else []) /\
    List.filter is_regex_call (emitted call w1) = [] /\
    (JS.truthy cached = true ->
     length (List.filter is_request (emitted call w ++ emitted call w1)) = 2%nat) /\
    (forall grouped, tab_groupId grouped <> TAB_GROUP_ID_NONE ->
                     handleTabUpdate grouped w1 = (tt, w1)).
Proof.
  intros Hel Hmiss Hparse call w1.
  destruct (handleTabUpdate_miss_caches tab id url domain w Hel Hmiss Hparse)
    as (cached & Hcached & Hreq).
  fold call in Hcached, Hreq. fold w1 in Hcached.
  exists cached.
  pose proof (handleTabUpdate_hit tab id url cached w1 Hel Hcached) as Hrun.
  fold call in Hrun.
  assert (Hem : emitted call w1
                = if JS.truthy cached then [AddTabToGroup id cached None] else []).
  { apply emitted_log. unfold run. by rewrite Hrun. }
  assert (Hw2 : run call w1
                = log (if JS.truthy cached then [AddTabToGroup id cached None] else []) w1)
    by (unfold run; by rewrite Hrun).
  rewrite Hw2, Hem; simpl.
  repeat split; try done.
  - by destruct (JS.truthy cached).
  - intros Htruthy. destruct (Hreq Htruthy) as [c Hfirst].
    by rewrite List.filter_app, Hfirst, Htruthy.
  - intros grouped Hgrouped. unfold handleTabUpdate.
    by apply Z.eqb_neq in Hgrouped as ->.
Qed.

(** C7. When neither a manual pattern nor (if enabled) an auto-pattern
    matches the domain of an uncached URL, [handleTabUpdate] makes no
    request and stores the empty string for the URL, an entry that is
    present in the cache.  Every later call for a tab with the same URL
    then stops at that entry: the world, with its record of regular
    expression calls and requests, stays exactly as it is, however often
    the call is repeated. *)
Theorem no_match_is_cached_and_short_circuits
    (w : World) (tab : Tab) (id : Z) (url domain : string) :
  eligible tab id url ->
  processedUrls (this w) !! url = None ->
  URL_hostname url = Some domain ->
  Forall (fun q => RegExp_test (pattern q) domain = false) (domainPatterns (this w)) ->
  (enableAutoPatterns (this w) = true -> fst (matchAutoPattern domain w) = None) ->
  let call := handleTabUpdate tab in
  let w1 := run call w in
  processedUrls (this w1) !! url = Some ""%string /\
  processedUrls (this w1) !! url <> None /\
  List.filter is_request (emitted call w) = [] /\
  (forall tab' id', eligible tab' id' url -> handleTabUpdate tab' w1 = (tt, w1)) /\
  forall n : nat, Nat.iter n (run call) w1 = w1.
Proof.
  intros Hel Hmiss Hparse Hmanual Hauto call w1.
  assert (Hfirst := first_match_None _ _ Hmanual).
  assert (Hauto' : enableAutoPatterns (this w) = true ->
                   auto_result (autoPatterns (this w)) domain = None).
  { intros Hen. specialize (Hauto Hen). by rewrite matchAutoPattern_spec in Hauto. }
  pose proof (handleTabUpdate_none tab id url domain w
                Hel Hmiss Hparse Hfirst Hauto') as Hrun.
  fold call in Hrun.
  assert (Hcached : processedUrls (this w1) !! url = Some ""%string).
  { unfold w1, run. rewrite Hrun; simpl. apply lookup_insert_eq. }
  repeat split.
  - done.
  - by rewrite Hcached.
  - erewrite emitted_log; [|unfold run; by rewrite Hrun].
    rewrite List.filter_app, tests_no_request.
    destruct (enableAutoPatterns (this w)); [apply matches_no_request|done].
  - intros tab' id' Hel'.
    rewrite (handleTabUpdate_hit tab' id' url ""%string w1 Hel' Hcached); simpl.
    by rewrite log_nil.
  - intros n. induction n as [|n IH]; simpl; [done|].
    rewrite IH. unfold run, call.
    rewrite (handleTabUpdate_hit tab id url ""%string w1 Hel Hcached); simpl.
    apply log_nil.
Qed.

End UrlCache.

(** C3 as stated fails: two calls for a tab of [github.com], with the
    manual pattern of GitHub and nothing changed in between, make two
    requests; the second comes from the cache hit. *)
Lemma two_calls_make_two_requests :
  let call := handleTabUpdate (Examples.tab 7 "https://github.com/") in
  List.filter is_request
    (emitted (bind call (fun _ => call)) Examples.with_github)
  = [AddTabToGroup 7 "GitHub" (Some "blue"); AddTabToGroup 7 "GitHub" None]
  /\ emitted call (run call Examples.with_github)
     = [AddTabToGroup 7 "GitHub" None].
Proof. split; vm_compute; reflexivity. Qed.

Lemma second_call_hits_cache_and_repeats_request_witness :
  let call := handleTabUpdate (Examples.tab 7 "https://github.com/") in
  let w1 := run call Examples.with_github in
  exists cached,
    processedUrls (this w1) !! "https://github.com/"%string = Some cached /\
    emitted call w1
      = (if JS.truthy cached then [AddTabToGroup 7 cached None] else []) /\
    List.filter is_regex_call (emitted call w1) = [].
Proof.
  intros call w1.
  destruct (second_call_hits_cache_and_repeats_request (H := Host.platform)
              Examples.with_github (Examples.tab 7 "https://github.com/") 7
              "https://github.com/" "github.com")
    as (cached & Hcached & _ & _ & Hem & Hno & _ & _).
  - unfold eligible; repeat split; try reflexivity; lia.
  - reflexivity.
  - reflexivity.
  - exists cached. exact (conj Hcached (conj Hem Hno)).
Defined.

Lemma no_match_is_cached_and_short_circuits_witness :
  let call := handleTabUpdate (Examples.tab 7 "http://localhost/") in
  let w1 := run call Examples.with_github in
  processedUrls (this w1) !! "http://localhost/"%string = Some ""%string /\
  processedUrls (this w1) !! "http://localhost/"%string <> None /\
  List.filter is_request (emitted call Examples.with_github) = [] /\
  (forall tab' id', eligible tab' id' "http://localhost/" ->
                    handleTabUpdate tab' w1 = (tt, w1)) /\
  forall n : nat, Nat.iter n (run call) w1 = w1.
Proof.
  apply (no_match_is_cached_and_short_circuits (H := Host.platform)
           Examples.with_github (Examples.tab 7 "http://localhost/") 7
           "http://localhost/" "localhost").
  - unfold eligible; repeat split; try reflexivity; lia.
  - reflexivity.
  - reflexivity.
  - repeat constructor.
  - intros _. reflexivity.
Defined.

(* ===================================================================== *)
(** * Rejected additions *)
(* ===================================================================== *)

Section Rejections.
Context `{Platform}.

(** C6. A template without [:name] does not compile; [addAutoPattern]
    returns [false] for it and the listener answers with a failure, and
    in both cases nothing changes: not the list of templates, not the
    caches, not the storage. *)
Theorem template_without_name_is_rejected (t : string) (w : World) :
  JS.includes t ":name" = false ->
  createAutoPattern t = None /\
  addAutoPattern t w = (false, w) /\
  onMessage (AddAutoPattern t) w = (Failure "Invalid template format", w).
Proof.
  intros Hin. repeat split.
  - by apply createAutoPattern_without_name.
  - by apply addAutoPattern_invalid.
  - simpl. by rewrite Hin, orb_true_r.
Qed.


(** The listener on its own, for a message that the popup never sends:
    [addPattern] has caught the error, so the listener has nothing to
    report and answers with [{ success: true }]. *)
Remark listener_has_no_error_to_report
    (src name : string) (c : option ColorEnum) (w : World) :
  RegExp_new src = None ->
  onMessage (AddPattern src name c) w = (Success true, w).
Proof. intros Hnew. simpl. unfold bind. by rewrite addPattern_invalid. Qed.

(** C10. [addAutoPattern] returns [false] for a template that is already
    in the list and changes nothing: the list, the storage and both
    caches stay as they are.  Whatever the template, the method keeps
    the templates distinct, and so does every other step of the service:
    no world that the service reaches has a template twice. *)
Theorem duplicate_template_is_rejected (t : string) (w : World) :
  (t ∈ templates_of (this w) -> addAutoPattern t w = (false, w)) /\
  (templates_distinct w -> templates_distinct (run (addAutoPattern t) w)) /\
  (reachable w -> NoDup (templates_of (this w))).
Proof.
  split; [|split].
  - apply addAutoPattern_duplicate.
  - apply addAutoPattern_distinct.
  - intros Hreach. by apply reachable_distinct in Hreach as [Hd _].
Qed.

End Rejections.

Section RejectionsOnHost.
#[local] Existing Instance Host.platform.

Lemma template_without_name_is_rejected_witness :
  createAutoPattern "*.example.com" = None /\
  addAutoPattern "*.example.com" Examples.fresh = (false, Examples.fresh) /\
  onMessage (AddAutoPattern "*.example.com") Examples.fresh
  = (Failure "Invalid template format", Examples.fresh).
Proof.
  apply (template_without_name_is_rejected (H := Host.platform)).
  reflexivity.
Defined.


Lemma duplicate_template_is_rejected_witness :
  addAutoPattern ":name.*" Examples.fresh = (false, Examples.fresh) /\
  templates_distinct (run (addAutoPattern ":name.*") Examples.fresh) /\
  NoDup (templates_of (this Examples.fresh)).
Proof.
  destruct (duplicate_template_is_rejected (H := Host.platform)
              ":name.*" Examples.fresh) as (Hdup & Hkeep & Hreach).
  assert (Hd : templates_distinct Examples.fresh).
  { split; simpl; [apply NoDup_singleton|exact I]. }
  split; [|split].
  - apply Hdup. vm_compute. apply list_elem_of_here.
  - apply (Hkeep Hd).
  - apply Hreach.
    assert (Hstart : Examples.fresh = constructor empty_storage) by reflexivity.
    rewrite Hstart. apply reachable_start.
Defined.

End RejectionsOnHost.

(* ===================================================================== *)
(** * Invalidation of the caches *)
(* ===================================================================== *)

Section Invalidation.
Context `{Platform}.

(** C2, as the code has it. Every mutation that takes effect empties the
    URL cache before the method returns.  Removing a template also
    empties the domain cache.  Adding a manual pattern, adding a
    template and setting the flag leave the domain cache as it is; its
    entries are then still what the auto-patterns of the new
    configuration return for their domains. *)
Theorem mutations_clear_the_url_cache (w : World) :
  (forall src name c r,
     RegExp_new src = Some r ->
     let w' := run (addPattern src name c) w in
     processedUrls (this w') = ∅ /\
     autoPatternCache (this w') = autoPatternCache (this w) /\
     (cache_coherent (this w) -> cache_coherent (this w')))
  /\
  (forall t,
     fst (addAutoPattern t w) = true ->
     let w' := run (addAutoPattern t) w in
     processedUrls (this w') = ∅ /\
     autoPatternCache (this w') = autoPatternCache (this w) /\
     (cache_coherent (this w) -> cache_coherent (this w')))
  /\
  (forall t,
     fst (removeAutoPattern t w) = true ->
     let w' := run (removeAutoPattern t) w in
     processedUrls (this w') = ∅ /\ autoPatternCache (this w') = ∅)
  /\
  (forall enabled,
     let w' := run (setAutoPatterns enabled) w in
     processedUrls (this w') = ∅ /\
     autoPatternCache (this w') = autoPatternCache (this w) /\
     (cache_coherent (this w) -> cache_coherent (this w'))).
Proof.
  split; [|split; [|split]].
  - intros src name c r Hnew w'. subst w'. unfold run.
    by rewrite (addPattern_added src name c r w Hnew).
  - intros t Hadded w'. subst w'. unfold run.
    destruct (decide (t ∈ templates_of (this w))) as [Hin|Hfresh];
      [by rewrite addAutoPattern_duplicate in Hadded|].
    destruct (createAutoPattern t) as [p|] eqn:Hcreate;
      [|by rewrite addAutoPattern_rejected_by_engine in Hadded].
    rewrite (addAutoPattern_added t p w Hfresh Hcreate); simpl.
    repeat split. apply cache_coherent_app.
  - intros t Hremoved w'. subst w'. unfold run.
    rewrite removeAutoPattern_spec in *.
    by destruct (_ <? _)%nat.
  - intros enabled w'. subst w'. unfold run. by rewrite setAutoPatterns_spec.
Qed.

End Invalidation.

Section InvalidationOnHost.
#[local] Existing Instance Host.platform.

(** C2 as stated fails: the domain cache holds [example.com -> Example]
    after a first tab; adding a manual pattern, adding a template and
    setting the flag each leave that entry in place, and a bulk grouping
    after the mutation is answered from it, without a call for an
    auto-pattern. *)
Lemma domain_cache_survives_mutations :
  let w := run (handleTabUpdate (Examples.tab 7 "https://example.com/"))
               Examples.fresh in
  let domain := "example.com"%string in
  autoPatternCache (this w) !! domain = Some "Example"%string /\
  autoPatternCache (this (run (addPattern "github\.com" "GitHub" None) w)) !! domain
    = Some "Example"%string /\
  addAutoPattern ":name.example.com" w
    = (true, run (addAutoPattern ":name.example.com") w) /\
  autoPatternCache (this (run (addAutoPattern ":name.example.com") w)) !! domain
    = Some "Example"%string /\
  autoPatternCache (this (run (setAutoPatterns true) w)) !! domain
    = Some "Example"%string /\
  emitted (groupAllExistingTabs [Examples.tab 8 "https://example.com/docs"])
          (run (setAutoPatterns true) w)
    = [AddTabToGroup 8 "Example" None].
Proof. repeat split; vm_compute; reflexivity. Qed.

Lemma mutations_clear_the_url_cache_witness :
  let w := run (handleTabUpdate (Examples.tab 7 "https://example.com/"))
               Examples.fresh in
  processedUrls (this w) <> ∅ /\
  processedUrls (this (run (addPattern "github\.com" "GitHub" None) w)) = ∅ /\
  processedUrls (this (run (addAutoPattern ":name.example.com") w)) = ∅ /\
  autoPatternCache (this (run (removeAutoPattern ":name.*") w)) = ∅ /\
  processedUrls (this (run (setAutoPatterns false) w)) = ∅ /\
  autoPatternCache (this w) !! "example.com"%string = Some "Example"%string /\
  cache_coherent (this (run (addAutoPattern ":name.example.com") w)).
Proof.
  intros w.
  destruct (mutations_clear_the_url_cache w) as (Hp & Ha & Hr & Hs).
  split; [|split; [|split; [|split; [|split; [|split]]]]].
  - vm_compute. discriminate.
  - eapply (Hp "github\.com"%string "GitHub"%string None). reflexivity.
  - apply (Ha ":name.example.com"%string). reflexivity.
  - apply (Hr ":name.*"%string). reflexivity.
  - apply (Hs false).
  - reflexivity.
  - apply (Ha ":name.example.com"%string); [reflexivity|].
    apply handleTabUpdate_coherent. intros d g Hd.
    change (autoPatternCache (this Examples.fresh)) with (∅ : gmap string string) in Hd.
    by rewrite lookup_empty in Hd.
Defined.

End InvalidationOnHost.

(* ===================================================================== *)
(** * Persistence of the auto-patterns *)
(* ===================================================================== *)

Section Persistence.
Context `{Platform}.

(** C8, as the code has it. Every mutation of the auto-patterns or of
    the flag stores, for each auto-pattern, its template together with
    the source text of its regular expression and its name position.
    Loading builds each regular expression from the stored source text
    (the template is carried along, not compiled again).  When a [RegExp]
    built from the source of another is that regular expression, the
    stored manual patterns load, and the saved list is not empty,
    loading restores the auto-patterns and the flag as they were
    saved. *)
Theorem saved_auto_patterns_are_restored (w : World) :
  (forall r, RegExp_new (RegExp_source r) = Some r) ->
  (forall t, fst (addAutoPattern t w) = true ->
             settings_saved (run (addAutoPattern t) w)) /\
  (forall t, fst (removeAutoPattern t w) = true ->
             settings_saved (run (removeAutoPattern t) w)) /\
  (forall enabled, settings_saved (run (setAutoPatterns enabled) w)) /\
  (forall patterns, mapM loadAutoPattern (stored_of patterns) = Some patterns) /\
  (settings_saved w ->
   autoPatterns (this w) <> [] ->
   (forall sd, stored_domainPatterns (local w) = Some sd ->
               is_Some (mapM loadDomainPattern sd)) ->
   autoPatterns (this (run loadPatternsFromStorage w)) = autoPatterns (this w) /\
   enableAutoPatterns (this (run loadPatternsFromStorage w))
   = enableAutoPatterns (this w)).
Proof.
  intros Hsource. split; [|split; [|split; [|split]]].
  - intros t Hadded. unfold run.
    destruct (decide (t ∈ templates_of (this w))) as [Hin|Hfresh];
      [by rewrite addAutoPattern_duplicate in Hadded|].
    destruct (createAutoPattern t) as [p|] eqn:Hcreate;
      [|by rewrite addAutoPattern_rejected_by_engine in Hadded].
    by rewrite (addAutoPattern_added t p w Hfresh Hcreate).
  - intros t Hremoved. unfold run.
    rewrite removeAutoPattern_spec in *.
    by destruct (_ <? _)%nat.
  - intros enabled. unfold run. by rewrite setAutoPatterns_spec.
  - by apply loadAutoPattern_stored_of.
  - by apply loadPatternsFromStorage_saved.
Qed.

End Persistence.

Section PersistenceOnHost.
#[local] Existing Instance Host.platform.

(** C8 as stated fails. What is stored for the default auto-pattern has
    the source text of its regular expression next to the template.
    Loading takes the regular expression from that text: a stored entry
    whose text differs from what its template compiles to loads with the
    stored text.  And saving then loading is not the identity: after the
    only template is removed the empty list is saved, and loading puts
    the default template back. *)
Lemma stored_regex_text_is_what_loads :
  stored_autoPatterns (local (run saveSettings Examples.fresh))
  = Some [{| stored_template := ":name.*";
             regexStr := "^([^.]+)\.[^.]+$";
             stored_namePosition := 1 |}]
  /\
  (RegExp_source <$> (regex <$>
     loadAutoPattern {| stored_template := ":name.*";
                        regexStr := "^([^.]+)\.example\.com$";
                        stored_namePosition := 1 |})
   = Some "^([^.]+)\.example\.com$"%string /\
   RegExp_source <$> (regex <$> createAutoPattern ":name.*")
   = Some "^([^.]+)\.[^.]+$"%string)
  /\
  (let removed := run (removeAutoPattern ":name.*") Examples.fresh in
   templates_of (this removed) = [] /\
   stored_autoPatterns (local removed) = Some [] /\
   templates_of (this (run loadPatternsFromStorage removed)) = [":name.*"%string]).
Proof. repeat split; vm_compute; reflexivity. Qed.

Lemma host_source_round_trip (r : Host.regexp) : Host.new (Host.source r) = Some r.
Proof.
  destruct r as [src ok]. unfold Host.new, Host.source; simpl.
  destruct (bool_dec (Host.wellFormed src) true) as [ok'|bad]; [|done].
  f_equal. f_equal. apply UIP_dec, bool_dec.
Qed.

Lemma saved_auto_patterns_are_restored_witness :
  let w := run (setAutoPatterns false) Examples.fresh in
  settings_saved w /\
  autoPatterns (this (run loadPatternsFromStorage w)) = autoPatterns (this w) /\
  enableAutoPatterns (this (run loadPatternsFromStorage w)) = false.
Proof.
  intros w.
  destruct (saved_auto_patterns_are_restored Examples.fresh host_source_round_trip)
    as (_ & _ & Hset & _ & _).
  destruct (saved_auto_patterns_are_restored w host_source_round_trip)
    as (_ & _ & _ & _ & Hload).
  split; [apply (Hset false)|].
  apply Hload.
  - apply (Hset false).
  - discriminate.
  - intros sd Hsd. discriminate Hsd.
Defined.

End PersistenceOnHost.

(* ===================================================================== *)
(** * The template compiler, on the concrete platform *)
(* ===================================================================== *)

Section Templates.
Import Host.
#[local] Existing Instance Host.platform.
Local Open Scope string_scope.

(** C4. [:name.example.com] compiles to [^([^.]+)\.example\.com$] with
    name position 1, and with it [dev.example.com] is classified as
    [Dev], also from the tab of a fresh service to which the template
    was added.  In general the compiled pattern matches exactly the
    domains [name.example.com] with [name] one label, and the group is
    that label with its first character in upper case and the others as
    they are. *)
Theorem name_example_com_classifies_dev :
  createAutoPattern ":name.example.com" = Some Examples.name_example_com /\
  (forall w, fst (matchAutoPattern_for [Examples.name_example_com]
                    "dev.example.com" w) = Some "Dev") /\
  emitted (handleTabUpdate (Examples.tab 7 "https://dev.example.com/"))
          (run (addAutoPattern ":name.example.com") Examples.fresh)
  = [StringMatch "dev.example.com" (regex Examples.default_auto);
     StringMatch "dev.example.com" (regex Examples.name_example_com);
     AddTabToGroup 7 "Dev" None] /\
  (forall w domain g,
     fst (matchAutoPattern_for [Examples.name_example_com] domain w) = Some g
     <-> exists name, isLabel name = true /\
                      domain = name ++ ".example.com" /\
                      g = JS.capitalize name) /\
  (forall c rest, JS.capitalize (String c rest) = String (JS.toUpperCaseChar c) rest) /\
  JS.toUpperCaseChar "d" = "D"%char /\
  (forall w, fst (matchAutoPattern_for [Examples.name_example_com]
                    "devOps.example.com" w) = Some "DevOps").
Proof.
  split; [reflexivity|]. split; [reflexivity|]. split; [vm_compute; reflexivity|].
  split; [|split; [reflexivity|split; reflexivity]].
  intros w domain g. rewrite matchAutoPattern_for_spec; cbn [fst].
  rewrite auto_result_single.
  assert (Hcap : forall name,
            captured Examples.name_example_com domain = Some name
            <-> exists rest,
                  Matches (Label true :: lits ".example.com") domain (name :: rest)).
  { intros name. apply captured_reading; [reflexivity|reflexivity| |].
    - intros caps (n & Hlabel & _ & ->)%readings_name_example_com. by exists n, [].
    - intros n rest n' rest'
        (l & Hl & -> & [= -> ->])%readings_name_example_com
        (l' & Hl' & Heq & [= -> ->])%readings_name_example_com.
      exact (proj1 (label_dot_unique l l' "example.com" "example.com" Hl Hl' Heq)). }
  split.
  - intros (name & Hname & ->). apply Hcap in Hname as [rest Hreading].
    apply readings_name_example_com in Hreading as (l & Hl & -> & [= -> ->]).
    by exists l.
  - intros (name & Hlabel & -> & ->). exists name. split; [|done].
    apply Hcap. exists []. apply readings_name_example_com. by exists name.
Qed.


End Templates.

(* ===================================================================== *)
(** * Further properties: the log manager *)
(* ===================================================================== *)

Section LogBuffer.
Import LogManager.

Lemma removelast_take {A} (l : list A) : removelast l = take (length l - 1) l.
Proof.
  induction l as [|a l IH]; [done|].
  destruct l as [|b l]; [done|].
  change (removelast (a :: b :: l)) with (a :: removelast (b :: l)).
  rewrite IH. simpl. by rewrite Nat.sub_0_r.
Qed.

Lemma log_take (timestamp message : string) (level : Level) (logs : list string) :
  (length logs <= maxLogs)%nat ->
  log timestamp message level logs
  = take maxLogs (logMessage timestamp message :: logs).
Proof.
  intros Hlen. unfold log.
  destruct (maxLogs <? length (logMessage timestamp message :: logs))%nat eqn:Hfull.
  - apply Nat.ltb_lt in Hfull. rewrite removelast_take. f_equal.
    simpl in *. lia.
  - apply Nat.ltb_ge in Hfull. by rewrite take_ge.
Qed.

Lemma take_app_take {A} (n : nat) (a b : list A) :
  take n (a ++ take n b) = take n (a ++ b).
Proof.
  rewrite !take_app. f_equal. rewrite take_take. f_equal. lia.
Qed.

Lemma log_all_take (calls : list (string * string * Level)) (logs : list string) :
  (length logs <= maxLogs)%nat ->
  log_all calls logs
  = take maxLogs
      (rev (map (fun call => logMessage (fst (fst call)) (snd (fst call))) calls)
         ++ logs).
Proof.
  revert logs; induction calls as [|[[ts msg] level] calls IH]; intros logs Hlen.
  - simpl. by rewrite take_ge.
  - simpl. rewrite IH.
    + rewrite (log_take ts msg level logs Hlen).
      rewrite take_app_take. by rewrite <- app_assoc.
    + rewrite (log_take ts msg level logs Hlen). rewrite length_take. lia.
Qed.

(** X1. Starting from the empty array, after any run of [LogManager.log]
    calls [getLogs] returns the messages of the last [maxLogs] calls,
    each with its timestamp, the newest first: the array never holds
    more than 100 entries and only the oldest ones are dropped. *)
Theorem log_keeps_the_newest_hundred (calls : list (string * string * Level)) :
  getLogs (log_all calls [])
  = take 100
      (rev (map (fun call => logMessage (fst (fst call)) (snd (fst call))) calls))
  /\ (length (getLogs (log_all calls [])) <= 100)%nat
  /\ forall timestamp message level,
       head (getLogs (log timestamp message level (log_all calls [])))
       = Some (logMessage timestamp message).
Proof.
  assert (Hall := log_all_take calls [] ltac:(simpl; lia)).
  rewrite app_nil_r in Hall. unfold getLogs.
  split; [exact Hall|]. split.
  - rewrite Hall, length_take. unfold maxLogs. lia.
  - intros ts msg level. rewrite log_take.
    + done.
    + rewrite Hall, length_take. lia.
Qed.

End LogBuffer.

(* ===================================================================== *)
(** * Further properties: grouping all tabs *)
(* ===================================================================== *)

Section BulkBody.
Context `{Platform}.

Ltac enter_body Hc :=
  destruct Hc as (Hurl & Hid & Htruthy & Hnz & Hparse & Hdom);
  unfold groupAllExistingTabs_body;
  rewrite Hurl, Hid, Htruthy, Hparse, Hdom;
  replace (_ =? 0) with false by (symmetry; by apply Z.eqb_neq);
  simpl;
  unfold bind at 1; unfold get at 1; simpl; unfold bind at 1;
  rewrite find_pattern_spec.

Lemma body_skip_or_classifiable (tab : Tab) (w : World) :
  groupAllExistingTabs_body tab w = (false, w)
  \/ exists id url domain, classifiable tab id url domain.
Proof.
  unfold groupAllExistingTabs_body, classifiable.
  destruct (tab_url tab) as [url|]; [|by left].
  destruct (tab_id tab) as [id|]; [|by left].
  destruct (JS.truthy url) eqn:Ht; simpl; [|by left].
  destruct (id =? 0) eqn:Hz; simpl; [by left|]. apply Z.eqb_neq in Hz.
  destruct (URL_hostname url) as [domain|] eqn:Hp; [|by left].
  destruct (JS.truthy domain) eqn:Hd; simpl; [|by left].
  right. by exists id, url, domain.
Qed.

Lemma body_manual (tab : Tab) (id : Z) (url domain : string)
    (p : DomainPattern) (w : World) :
  classifiable tab id url domain ->
  first_match (domainPatterns (this w)) domain = Some p ->
  groupAllExistingTabs_body tab w
  = (true, log (tests (domainPatterns (this w)) domain
                  ++ [AddTabToGroup id (groupName p) (color p)]) w).
Proof.
  intros Hc Hfirst. enter_body Hc. rewrite Hfirst.
  unfold_monad. by rewrite <- app_assoc.
Qed.

Lemma body_disabled (tab : Tab) (id : Z) (url domain : string) (w : World) :
  classifiable tab id url domain ->
  first_match (domainPatterns (this w)) domain = None ->
  enableAutoPatterns (this w) = false ->
  groupAllExistingTabs_body tab w
  = (false, log (tests (domainPatterns (this w)) domain) w).
Proof.
  intros Hc Hfirst Hen. enter_body Hc. rewrite Hfirst; simpl. by rewrite Hen.
Qed.

Lemma body_cached (tab : Tab) (id : Z) (url domain name : string) (w : World) :
  classifiable tab id url domain ->
  first_match (domainPatterns (this w)) domain = None ->
  enableAutoPatterns (this w) = true ->
  autoPatternCache (this w) !! domain = Some name ->
  JS.truthy name = true ->
  groupAllExistingTabs_body tab w
  = (true, log (tests (domainPatterns (this w)) domain
                  ++ [AddTabToGroup id name None]) w).
Proof.
  intros Hc Hfirst Hen Hhit Hname. enter_body Hc. rewrite Hfirst; simpl.
  rewrite Hen, Hhit, Hname. unfold_monad. by rewrite <- app_assoc.
Qed.

Lemma body_uncached (tab : Tab) (id : Z) (url domain : string) (w : World) :
  classifiable tab id url domain ->
  first_match (domainPatterns (this w)) domain = None ->
  enableAutoPatterns (this w) = true ->
  (forall name, autoPatternCache (this w) !! domain = Some name ->
                JS.truthy name = false) ->
  groupAllExistingTabs_body tab w
  = match auto_result (autoPatterns (this w)) domain with
    | Some name =>
        (true,
         {| this := set_autoPatternCache
                      (<[domain := name]> (autoPatternCache (this w))) (this w);
            local := local w;
            events := events w ++ tests (domainPatterns (this w)) domain
                        ++ matches (autoPatterns (this w)) domain
                        ++ [AddTabToGroup id name None] |})
    | None =>
        (false, log (tests (domainPatterns (this w)) domain
                       ++ matches (autoPatterns (this w)) domain) w)
    end.
Proof.
  intros Hc Hfirst Hen Hmiss. enter_body Hc. rewrite Hfirst; simpl. rewrite Hen.
  assert (Hfresh :
    (g <- matchAutoPattern domain ;;
     match g with
     | Some name =>
         if JS.truthy name
         then modify (fun m => set_autoPatternCache
                                 (<[domain := name]> (autoPatternCache m)) m) ;;
              addTabToGroup id name None ;; ret true
         else ret false
     | None => ret false
     end)%service (log (tests (domainPatterns (this w)) domain) w)
    = match auto_result (autoPatterns (this w)) domain with
      | Some name =>
          (true,
           {| this := set_autoPatternCache
                        (<[domain := name]> (autoPatternCache (this w))) (this w);
              local := local w;
              events := events w ++ tests (domainPatterns (this w)) domain
                          ++ matches (autoPatterns (this w)) domain
                          ++ [AddTabToGroup id name None] |})
      | None =>
          (false, log (tests (domainPatterns (this w)) domain
                         ++ matches (autoPatterns (this w)) domain) w)
      end).
  { unfold bind at 1. rewrite matchAutoPattern_spec. simpl.
    destruct (auto_result (autoPatterns (this w)) domain) as [name|] eqn:Hauto.
    - rewrite (auto_result_truthy _ _ _ Hauto). unfold_monad.
      by rewrite <- !app_assoc.
    - unfold_monad. by rewrite <- app_assoc. }
  destruct (autoPatternCache (this w) !! domain) as [name|] eqn:Hlook.
  - rewrite (Hmiss name eq_refl). exact Hfresh.
  - exact Hfresh.
Qed.

End BulkBody.

Section BulkLoop.
Context `{Platform}.

Lemma requests_app (a b : list Event) : requests (a ++ b) = requests a ++ requests b.
Proof. apply List.filter_app. Qed.

Lemma requests_tests (patterns : list DomainPattern) (domain : string) :
  requests (tests patterns domain) = [].
Proof. apply tests_no_request. Qed.

Lemma requests_matches (patterns : list AutoPattern) (domain : string) :
  requests (matches patterns domain) = [].
Proof. apply matches_no_request. Qed.

(** One round of the loop: what it adds to the events, and that it
    counts the tab exactly when it makes a request for it. *)
Lemma body_summary (tab : Tab) (w : World) :
  exists evs,
    events (run (groupAllExistingTabs_body tab) w) = events w ++ evs /\
    processedUrls (this (run (groupAllExistingTabs_body tab) w))
    = processedUrls (this w) /\
    length (requests evs)
    = (if fst (groupAllExistingTabs_body tab w) then 1 else 0)%nat /\
    (forall e, e ∈ requests evs ->
               exists id name c, e = AddTabToGroup id name c /\ tab_id tab = Some id).
Proof.
  unfold run.
  destruct (body_skip_or_classifiable tab w) as [->|(id & url & domain & Hc)].
  { exists []. simpl. rewrite app_nil_r. repeat split; try done.
    by intros e ?%not_elem_of_nil. }
  assert (Hid : tab_id tab = Some id) by apply Hc.
  assert (Hone : forall name c,
            forall e, e ∈ [AddTabToGroup id name c] ->
                      exists id' name' c', e = AddTabToGroup id' name' c' /\
                                           tab_id tab = Some id').
  { intros name c e ->%list_elem_of_singleton. by exists id, name, c. }
  destruct (first_match (domainPatterns (this w)) domain) as [p|] eqn:Hfirst.
  { rewrite (body_manual tab id url domain p w Hc Hfirst).
    eexists. simpl. repeat split; try done.
    - by rewrite requests_app, requests_tests.
    - rewrite requests_app, requests_tests. apply Hone. }
  destruct (enableAutoPatterns (this w)) eqn:Hen.
  2:{ rewrite (body_disabled tab id url domain w Hc Hfirst Hen).
      eexists. simpl. repeat split; try done.
      - by rewrite requests_tests.
      - rewrite requests_tests. by intros e ?%not_elem_of_nil. }
  destruct (autoPatternCache (this w) !! domain) as [cached|] eqn:Hlook;
    [destruct (JS.truthy cached) eqn:Hcached|].
  - rewrite (body_cached tab id url domain cached w Hc Hfirst Hen Hlook Hcached).
    eexists. simpl. repeat split; try done.
    + by rewrite requests_app, requests_tests.
    + rewrite requests_app, requests_tests. apply Hone.
  - rewrite (body_uncached tab id url domain w Hc Hfirst Hen);
      [|by intros name; rewrite Hlook; intros [= <-]].
    destruct (auto_result (autoPatterns (this w)) domain) as [name|].
    + eexists. simpl. repeat split; try done.
      * by rewrite !requests_app, requests_tests, requests_matches.
      * rewrite !requests_app, requests_tests, requests_matches. apply Hone.
    + eexists. simpl. repeat split; try done.
      * by rewrite requests_app, requests_tests, requests_matches.
      * rewrite requests_app, requests_tests, requests_matches.
        by intros e ?%not_elem_of_nil.
  - rewrite (body_uncached tab id url domain w Hc Hfirst Hen);
      [|by intros name; rewrite Hlook].
    destruct (auto_result (autoPatterns (this w)) domain) as [name|].
    + eexists. simpl. repeat split; try done.
      * by rewrite !requests_app, requests_tests, requests_matches.
      * rewrite !requests_app, requests_tests, requests_matches. apply Hone.
    + eexists. simpl. repeat split; try done.
      * by rewrite requests_app, requests_tests, requests_matches.
      * rewrite requests_app, requests_tests, requests_matches.
        by intros e ?%not_elem_of_nil.
Qed.

Lemma body_request_for (tab : Tab) (evs : list Event) (counted : bool) :
  length (requests evs) = (if counted then 1 else 0)%nat ->
  (forall e, e ∈ requests evs ->
             exists id name c, e = AddTabToGroup id name c /\ tab_id tab = Some id) ->
  request_for tab (requests evs).
Proof.
  intros Hlen Hreq. destruct (requests evs) as [|e [|e' reqs]].
  - by left.
  - right. destruct (Hreq e) as (id & name & c & -> & Hid); [apply list_elem_of_here|].
    by exists id, name, c.
  - destruct counted; discriminate Hlen.
Qed.

Lemma loop_summary (tabs : list Tab) (n : nat) (w : World) :
  exists evs,
    events (run (groupAllExistingTabs_for tabs n) w) = events w ++ evs /\
    processedUrls (this (run (groupAllExistingTabs_for tabs n) w))
    = processedUrls (this w) /\
    fst (groupAllExistingTabs_for tabs n w) = (n + length (requests evs))%nat /\
    (exists per, Forall2 request_for tabs per /\ requests evs = concat per) /\
    (length (requests evs) <= length tabs)%nat /\
    (forall e, e ∈ requests evs ->
               exists tab id name c,
                 tab ∈ tabs /\ e = AddTabToGroup id name c /\ tab_id tab = Some id).
Proof.
  revert n w; induction tabs as [|tab rest IH]; intros n w.
  - exists []. unfold run; simpl. rewrite app_nil_r.
    repeat split; try done; try lia.
    + exists []. split; [constructor|done].
    + by intros e ?%not_elem_of_nil.
  - destruct (body_summary tab w) as (evs1 & Hev1 & Hurl1 & Hlen1 & Hreq1).
    assert (Hfor := body_request_for tab evs1 _ Hlen1 Hreq1).
    unfold run in *. simpl. unfold bind.
    destruct (groupAllExistingTabs_body tab w) as [counted w1] eqn:Hbody.
    simpl in *.
    destruct (IH (if counted then S n else n) w1)
      as (evs2 & Hev2 & Hurl2 & Hcount2 & (per & Hper & Hconcat) & Hlen2 & Hreq2).
    exists (evs1 ++ evs2).
    rewrite Hev2, Hev1, Hurl2, Hurl1, Hcount2, requests_app, length_app.
    repeat split.
    + by rewrite app_assoc.
    + destruct counted; lia.
    + exists (requests evs1 :: per). split; [by constructor|].
      simpl. by rewrite Hconcat.
    + destruct counted; lia.
    + intros e [Hin|Hin]%elem_of_app.
      * destruct (Hreq1 e Hin) as (id & name & c & -> & Hid).
        exists tab, id, name, c. repeat split; [apply list_elem_of_here|done].
      * destruct (Hreq2 e Hin) as (tab' & id & name & c & Hin' & -> & Hid).
        exists tab', id, name, c. repeat split; [by apply list_elem_of_further|done].
Qed.

End BulkLoop.

Section BulkCount.
Context `{Platform}.

(** X2. The number that [groupAllExistingTabs] returns is the number of
    requests it makes.  The requests are those of the tabs of the answer
    of the query that are in no group and whose URL does not contain
    [chrome://] or [brave://], tab by tab in the order of the answer:
    for each such tab there is no request or a single one, with the id
    of that tab.  The URL cache, the patterns, the flag and the storage
    are left as they are. *)
Theorem groupAllExistingTabs_counts_its_requests (tabs : list Tab) (w : World) :
  let evs := emitted (groupAllExistingTabs tabs) w in
  let w' := run (groupAllExistingTabs tabs) w in
  fst (groupAllExistingTabs tabs w) = length (requests evs) /\
  (exists per, Forall2 request_for (List.filter ungrouped tabs) per /\
               requests evs = concat per) /\
  (length (requests evs) <= length (List.filter ungrouped tabs))%nat /\
  (forall e, e ∈ requests evs ->
             exists tab id name c,
               tab ∈ tabs /\ ungrouped tab = true /\
               e = AddTabToGroup id name c /\ tab_id tab = Some id) /\
  processedUrls (this w') = processedUrls (this w) /\
  same_settings w w'.
Proof.
  intros evs w'. subst evs w'.
  destruct (loop_summary (List.filter ungrouped tabs) 0 w)
    as (evs & Hev & Hurl & Hcount & Hper & Hlen & Hreq).
  fold (groupAllExistingTabs tabs) in Hev, Hurl, Hcount.
  rewrite (emitted_log _ _ _ Hev).
  repeat split; try done.
  - intros e Hin. destruct (Hreq e Hin) as (tab & id & name & c & Htab & -> & Hid).
    apply list_elem_of_In, List.filter_In in Htab as [Htab Hung].
    exists tab, id, name, c. repeat split; try done. by apply list_elem_of_In.
  - apply keeps_groupAllExistingTabs_for.
  - apply keeps_groupAllExistingTabs_for.
  - apply keeps_groupAllExistingTabs_for.
  - apply keeps_groupAllExistingTabs_for.
Qed.

End BulkCount.

Section UnparsableUrl.
Context `{Platform}.

Lemma bind_ext {A B} (c : M A) (k k' : A -> M B) (w : World) :
  (forall a w', k a w' = k' a w') -> bind c k w = bind c k' w.
Proof. intros Hk. unfold bind. destruct (c w) as [a w']. apply Hk. Qed.

Lemma body_unparsable (bad : Tab) (w : World) :
  unparsable bad -> groupAllExistingTabs_body bad w = (false, w).
Proof.
  intros (id & url & Hurl & Hid & Htruthy & Hnz & Hparse).
  unfold groupAllExistingTabs_body. rewrite Hurl, Hid, Htruthy, Hparse.
  by replace (_ =? 0) with false by (symmetry; by apply Z.eqb_neq).
Qed.

Lemma loop_skips_unparsable (pre post : list Tab) (bad : Tab) (n : nat) (w : World) :
  unparsable bad ->
  groupAllExistingTabs_for (pre ++ bad :: post) n w
  = groupAllExistingTabs_for (pre ++ post) n w.
Proof.
  intros Hbad. revert n w; induction pre as [|tab pre IH]; intros n w; simpl.
  - unfold bind. by rewrite body_unparsable.
  - unfold bind. destruct (groupAllExistingTabs_body tab w) as [counted w1].
    apply IH.
Qed.

(** X3. [groupAllExistingTabs] passes over a tab whose URL does not
    parse: the error is caught for that tab alone, and the result is the
    one for the list without it. *)
Theorem groupAllExistingTabs_skips_unparsable_tab
    (pre post : list Tab) (bad : Tab) (w : World) :
  unparsable bad ->
  groupAllExistingTabs (pre ++ bad :: post) w = groupAllExistingTabs (pre ++ post) w.
Proof.
  intros Hbad. unfold groupAllExistingTabs.
  rewrite !List.filter_app. simpl.
  destruct (ungrouped bad); [|done]. by apply loop_skips_unparsable.
Qed.

(** X4. [applyAutoPatternToExistingTabs] and [applyAutoPatternsToTabs]
    stop at the first tab whose URL does not parse: the error leaves the
    loop, and the tabs after it are not looked at. *)
Theorem applyAutoPattern_stops_at_unparsable_tab
    (pre post : list Tab) (bad : Tab) (w : World) :
  unparsable bad ->
  applyAutoPatternToExistingTabs (pre ++ bad :: post) w
  = applyAutoPatternToExistingTabs pre w /\
  applyAutoPatternsToTabs (pre ++ bad :: post) w = applyAutoPatternsToTabs pre w.
Proof.
  intros (id & url & Hurl & Hid & Htruthy & Hnz & Hparse).
  assert (Hloop : forall w, applyAutoPattern_for (pre ++ bad :: post) w
                            = applyAutoPattern_for pre w).
  { induction pre as [|tab pre IH]; intros w'; simpl.
    - rewrite Hurl, Hid, Htruthy, Hparse.
      by replace (_ =? 0) with false by (symmetry; by apply Z.eqb_neq).
    - destruct (tab_url tab) as [u|]; [|apply IH].
      destruct (tab_id tab) as [i|]; [|apply IH].
      destruct (negb (JS.truthy u) || (i =? 0)); [apply IH|].
      destruct (URL_hostname u) as [d|]; [|done].
      apply bind_ext; intros m w1.
      apply bind_ext; intros [p|] w2; [apply IH|].
      apply bind_ext; intros g w3.
      apply bind_ext; intros u0 w4. apply IH. }
  unfold applyAutoPatternToExistingTabs, applyAutoPatternsToTabs, bind, get; simpl.
  destruct (enableAutoPatterns (this w)); simpl; [|done]. by rewrite Hloop.
Qed.

End UnparsableUrl.

(* ===================================================================== *)
(** * Further properties: one tab *)
(* ===================================================================== *)

Section OneTab.
Context `{Platform}.

Lemma no_auto_call_tests (patterns : list DomainPattern) (domain : string) :
  List.filter is_auto_call (tests patterns domain) = [].
Proof. unfold tests. by induction (tested patterns domain). Qed.

(** What one call of [handleTabUpdate] does, by cases. *)
Lemma handleTabUpdate_summary (tab : Tab) (w : World) :
  exists evs,
    events (run (handleTabUpdate tab) w) = events w ++ evs /\
    (requests evs = [] \/
     exists id url name c,
       eligible tab id url /\ requests evs = [AddTabToGroup id name c]) /\
    (enableAutoPatterns (this w) = false ->
     List.filter is_auto_call evs = [] /\
     autoPatternCache (this (run (handleTabUpdate tab) w))
     = autoPatternCache (this w)).
Proof.
  unfold run.
  destruct (handleTabUpdate_skips_or_eligible tab w) as [->|(id & url & Hel)].
  { exists []. simpl. rewrite app_nil_r. repeat split; by auto. }
  destruct (processedUrls (this w) !! url) as [cached|] eqn:Hlook.
  { rewrite (handleTabUpdate_hit tab id url cached w Hel Hlook).
    eexists. simpl. split; [done|]. split.
    - destruct (JS.truthy cached); [right|by left].
      by exists id, url, cached, None.
    - intros _. by destruct (JS.truthy cached). }
  destruct (URL_hostname url) as [domain|] eqn:Hparse.
  2:{ rewrite (handleTabUpdate_invalid_url tab id url w Hel Hlook Hparse).
      exists []. simpl. rewrite app_nil_r. repeat split; by auto. }
  destruct (first_match (domainPatterns (this w)) domain) as [p|] eqn:Hfirst.
  { rewrite (handleTabUpdate_manual tab id url domain p w Hel Hlook Hparse Hfirst).
    eexists. simpl. split; [done|]. split.
    - right. exists id, url, (groupName p), (color p). split; [done|].
      by rewrite requests_app, requests_tests.
    - intros _. split; [|done].
      by rewrite List.filter_app, no_auto_call_tests. }
  destruct (enableAutoPatterns (this w)) eqn:Hen;
    [destruct (auto_result (autoPatterns (this w)) domain) as [name|] eqn:Hauto|].
  - rewrite (handleTabUpdate_auto tab id url domain name w
               Hel Hlook Hparse Hfirst Hen Hauto).
    eexists. simpl. split; [done|]. split; [|done].
    right. exists id, url, name, None. split; [done|].
    by rewrite !requests_app, requests_tests, requests_matches.
  - rewrite (handleTabUpdate_none tab id url domain w
               Hel Hlook Hparse Hfirst (fun _ => Hauto)).
    eexists. simpl. split; [done|]. split; [|done].
    left. rewrite Hen. by rewrite requests_app, requests_tests, requests_matches.
  - rewrite (handleTabUpdate_none tab id url domain w Hel Hlook Hparse Hfirst);
      [|by rewrite Hen].
    eexists. simpl. split; [done|]. rewrite Hen, app_nil_r. split.
    + left. apply requests_tests.
    + intros _. split; [apply no_auto_call_tests|done].
Qed.

(** X5. One call of [handleTabUpdate] makes at most one request, and
    makes it only for a tab that is in no group, has an id and has a URL
    that does not start with [chrome://] or [brave://]; the request
    carries the id of that tab. *)
Theorem handleTabUpdate_makes_at_most_one_request (tab : Tab) (w : World) :
  let reqs := requests (emitted (handleTabUpdate tab) w) in
  reqs = [] \/
  exists id url name c, eligible tab id url /\ reqs = [AddTabToGroup id name c].
Proof.
  destruct (handleTabUpdate_summary tab w) as (evs & Hev & Hreq & _).
  simpl. by rewrite (emitted_log _ _ _ Hev).
Qed.

(** X6. After a call for an eligible tab whose URL was not cached, the
    URL cache has an entry for the URL exactly when the URL parses: a
    match or the empty string is stored for every URL with a host name,
    and a URL that the parser rejects is caught, changes nothing, and is
    parsed again by the next call. *)
Theorem handleTabUpdate_caches_every_parsable_url
    (tab : Tab) (id : Z) (url : string) (w : World) :
  eligible tab id url ->
  processedUrls (this w) !! url = None ->
  (processedUrls (this (run (handleTabUpdate tab) w)) !! url = None
   <-> URL_hostname url = None) /\
  (URL_hostname url = None -> handleTabUpdate tab w = (tt, w)).
Proof.
  intros Hel Hmiss.
  split; [|by apply (handleTabUpdate_invalid_url tab id url w)].
  destruct (URL_hostname url) as [domain|] eqn:Hparse.
  - destruct (handleTabUpdate_miss_caches tab id url domain w Hel Hmiss Hparse)
      as (cached & Hcached & _).
    rewrite Hcached. by split.
  - unfold run. by rewrite (handleTabUpdate_invalid_url tab id url w Hel Hmiss Hparse).
Qed.

End OneTab.

Section DomainCache.
Context `{Platform}.

(** X7. When [handleTabUpdate] groups a tab by an auto-pattern it writes
    the name into both caches, and [groupAllExistingTabs] then answers
    for any tab of the same domain from the domain cache: it tests the
    manual patterns, calls no auto-pattern, and requests the cached
    name. *)
Theorem auto_match_is_reused_by_bulk_grouping
    (tab other : Tab) (id id' : Z) (url url' domain name : string) (w : World) :
  eligible tab id url ->
  processedUrls (this w) !! url = None ->
  URL_hostname url = Some domain ->
  Forall (fun q => RegExp_test (pattern q) domain = false) (domainPatterns (this w)) ->
  enableAutoPatterns (this w) = true ->
  fst (matchAutoPattern domain w) = Some name ->
  ungrouped other = true ->
  classifiable other id' url' domain ->
  let w1 := run (handleTabUpdate tab) w in
  processedUrls (this w1) !! url = Some name /\
  autoPatternCache (this w1) !! domain = Some name /\
  groupAllExistingTabs [other] w1
  = (1%nat, log (map (fun q => RegExpTest (pattern q) domain) (domainPatterns (this w))
                   ++ [AddTabToGroup id' name None]) w1).
Proof.
  intros Hel Hmiss Hparse Hmanual Hen Hauto Hung Hc w1.
  assert (Hfirst := first_match_None _ _ Hmanual).
  rewrite matchAutoPattern_spec in Hauto. simpl in Hauto.
  assert (Hw1 := handleTabUpdate_auto tab id url domain name w
                   Hel Hmiss Hparse Hfirst Hen Hauto).
  assert (Htests : tests (domainPatterns (this w)) domain
                   = map (fun q => RegExpTest (pattern q) domain) (domainPatterns (this w))).
  { unfold tests. f_equal. clear -Hmanual.
    induction Hmanual as [|q rest Hq _ IH]; simpl; [done|]. by rewrite Hq, IH. }
  assert (Hthis : this w1
                  = set_processedUrls (<[url := name]> (processedUrls (this w)))
                      (set_autoPatternCache
                         (<[domain := name]> (autoPatternCache (this w))) (this w)))
    by (unfold w1, run; by rewrite Hw1).
  split; [rewrite Hthis; apply lookup_insert_eq|].
  split; [rewrite Hthis; apply lookup_insert_eq|].
  unfold groupAllExistingTabs. simpl. rewrite Hung. simpl. unfold bind.
  rewrite (body_cached other id' url' domain name w1 Hc).
  - rewrite Hthis; simpl. by rewrite Htests.
  - by rewrite Hthis.
  - by rewrite Hthis.
  - rewrite Hthis; simpl. apply lookup_insert_eq.
  - by apply (auto_result_truthy _ _ _ Hauto).
Qed.

Lemma body_disabled_summary (tab : Tab) (w : World) :
  enableAutoPatterns (this w) = false ->
  exists evs,
    events (run (groupAllExistingTabs_body tab) w) = events w ++ evs /\
    List.filter is_auto_call evs = [] /\
    this (run (groupAllExistingTabs_body tab) w) = this w.
Proof.
  intros Hen. unfold run.
  destruct (body_skip_or_classifiable tab w) as [->|(id & url & domain & Hc)].
  { exists []. simpl. by rewrite app_nil_r. }
  destruct (first_match (domainPatterns (this w)) domain) as [p|] eqn:Hfirst.
  - rewrite (body_manual tab id url domain p w Hc Hfirst).
    eexists. simpl. repeat split; try done.
    by rewrite List.filter_app, no_auto_call_tests.
  - rewrite (body_disabled tab id url domain w Hc Hfirst Hen).
    eexists. simpl. repeat split; try done. apply no_auto_call_tests.
Qed.

Lemma loop_disabled_summary (tabs : list Tab) (n : nat) (w : World) :
  enableAutoPatterns (this w) = false ->
  exists evs,
    events (run (groupAllExistingTabs_for tabs n) w) = events w ++ evs /\
    List.filter is_auto_call evs = [] /\
    this (run (groupAllExistingTabs_for tabs n) w) = this w.
Proof.
  revert n w; induction tabs as [|tab rest IH]; intros n w Hen.
  - exists []. unfold run; simpl. by rewrite app_nil_r.
  - destruct (body_disabled_summary tab w Hen) as (evs1 & Hev1 & Hno1 & Hthis1).
    unfold run in *. simpl. unfold bind.
    destruct (groupAllExistingTabs_body tab w) as [counted w1]. simpl in *.
    destruct (IH (if counted then S n else n) w1) as (evs2 & Hev2 & Hno2 & Hthis2);
      [by rewrite Hthis1|].
    exists (evs1 ++ evs2). rewrite Hev2, Hev1, Hthis2, Hthis1.
    repeat split; [by rewrite app_assoc|].
    by rewrite List.filter_app, Hno1, Hno2.
Qed.

(** X8. While auto-patterns are disabled no auto-pattern is called and
    the domain cache is neither read nor written: [handleTabUpdate] and
    [groupAllExistingTabs] make no [match] call and leave the domain
    cache as it is, the bulk grouping leaves the whole manager as it is
    whatever the domain cache holds, and [applyAutoPatternToExistingTabs]
    and [applyAutoPatternsToTabs] do nothing. *)
Theorem disabled_auto_patterns_are_never_called
    (tab : Tab) (tabs : list Tab) (w : World) :
  enableAutoPatterns (this w) = false ->
  List.filter is_auto_call (emitted (handleTabUpdate tab) w) = [] /\
  autoPatternCache (this (run (handleTabUpdate tab) w)) = autoPatternCache (this w) /\
  List.filter is_auto_call (emitted (groupAllExistingTabs tabs) w) = [] /\
  this (run (groupAllExistingTabs tabs) w) = this w /\
  applyAutoPatternToExistingTabs tabs w = (tt, w) /\
  applyAutoPatternsToTabs tabs w = (tt, w).
Proof.
  intros Hen.
  destruct (handleTabUpdate_summary tab w) as (evs & Hev & _ & Hoff).
  destruct (Hoff Hen) as [Hno Hcache].
  destruct (loop_disabled_summary (List.filter ungrouped tabs) 0 w Hen)
    as (evs' & Hev' & Hno' & Hthis').
  fold (groupAllExistingTabs tabs) in Hev', Hthis'.
  rewrite (emitted_log _ _ _ Hev), (emitted_log _ _ _ Hev').
  repeat split; try done.
  - unfold applyAutoPatternToExistingTabs, bind, get; simpl. by rewrite Hen.
  - unfold applyAutoPatternsToTabs, bind, get; simpl. by rewrite Hen.
Qed.

End DomainCache.

(* ===================================================================== *)
(** * Further properties: adding and removing patterns *)
(* ===================================================================== *)

Section Removal.
Context `{Platform}.

Lemma filter_shorter_iff (t : string) (patterns : list AutoPattern) :
  (length (List.filter (fun p => negb (String.eqb (template p) t)) patterns)
   < length patterns)%nat
  <-> t ∈ map template patterns.
Proof.
  induction patterns as [|p rest IH]; simpl.
  - split; [lia|by intros ?%not_elem_of_nil].
  - pose proof (List.filter_length_le
                  (fun p => negb (String.eqb (template p) t)) rest) as Hle.
    rewrite elem_of_cons.
    destruct (String.eqb (template p) t) eqn:Heq; simpl.
    + apply String.eqb_eq in Heq. split; [by left|lia].
    + apply String.eqb_neq in Heq. split.
      * intros Hlt. right. apply IH. lia.
      * intros [Ht|Hin]; [congruence|]. apply IH in Hin. lia.
Qed.

Lemma filter_removes (t : string) (patterns : list AutoPattern) :
  t ∉ map template
        (List.filter (fun p => negb (String.eqb (template p) t)) patterns).
Proof.
  intros Hin. apply list_elem_of_In, in_map_iff in Hin as (p & Hp & Hin).
  apply List.filter_In in Hin as [_ Hne].
  apply negb_true_iff, String.eqb_neq in Hne. done.
Qed.

Lemma filter_keeps_all (t : string) (patterns : list AutoPattern) :
  t ∉ map template patterns ->
  List.filter (fun p => negb (String.eqb (template p) t)) patterns = patterns.
Proof.
  induction patterns as [|p rest IH]; simpl; [done|].
  rewrite not_elem_of_cons. intros [Hne Hrest].
  destruct (String.eqb (template p) t) eqn:Heq; simpl.
  - apply String.eqb_eq in Heq. congruence.
  - by rewrite IH.
Qed.

(** X9. After [removeAutoPattern] the template is in the list no more,
    every entry with that template is gone and the others keep their
    order.  The method returns [true] exactly when the template was in
    the list; when it was not, nothing changes.  The listener answers
    [{ success: true }] in both cases. *)
Theorem removeAutoPattern_removes_every_entry (t : string) (w : World) :
  let w' := run (removeAutoPattern t) w in
  (t ∉ templates_of (this w')) /\
  autoPatterns (this w')
  = List.filter (fun p => negb (String.eqb (template p) t)) (autoPatterns (this w)) /\
  (fst (removeAutoPattern t w) = true <-> t ∈ templates_of (this w)) /\
  (t ∉ templates_of (this w) -> removeAutoPattern t w = (false, w)) /\
  onMessage (RemoveAutoPattern t) w = (Success true, w').
Proof.
  intros w'. subst w'. unfold run.
  pose proof (filter_shorter_iff t (autoPatterns (this w))) as Hiff.
  pose proof (filter_removes t (autoPatterns (this w))) as Hgone.
  assert (Hafter : (t ∉ templates_of (this (removeAutoPattern t w).2)) /\
                   autoPatterns (this (removeAutoPattern t w).2)
                   = List.filter (fun p => negb (String.eqb (template p) t))
                       (autoPatterns (this w))).
  { rewrite removeAutoPattern_spec.
    destruct (_ <? _)%nat eqn:Hlt; simpl; [done|].
    apply Nat.ltb_ge in Hlt.
    assert (Hnot : t ∉ map template (autoPatterns (this w)))
      by (intros Hin; apply Hiff in Hin; lia).
    split; [done|]. by rewrite filter_keeps_all. }
  destruct Hafter as [Hnotin Hlist].
  split; [done|]. split; [done|]. split; [|split].
  - rewrite removeAutoPattern_spec.
    destruct (_ <? _)%nat eqn:Hlt; simpl.
    + apply Nat.ltb_lt in Hlt. split; [intros _; by apply Hiff|done].
    + apply Nat.ltb_ge in Hlt. split; [done|]. intros Hin%Hiff. lia.
  - intros Hnot. rewrite removeAutoPattern_spec.
    destruct (_ <? _)%nat eqn:Hlt; [|done].
    apply Nat.ltb_lt, Hiff in Hlt. done.
  - simpl. unfold bind.
    destruct (removeAutoPattern t w) as [removed w1] eqn:Hrun. simpl in *.
    unfold getAutoPatternTemplates, bind, get, ret; simpl.
    destruct (includes_template (map template (autoPatterns (this w1))) t) eqn:Hinc;
      [|done].
    apply includes_template_elem in Hinc. done.
Qed.

(** X10. Removing a template right after it was added undoes the
    addition: the list of auto-patterns is the one before and both
    caches are empty.  The storage then holds what [saveSettings] writes
    for that list; this is what it held before exactly when the settings
    had been saved, and then the whole storage is as before.  After a
    first start, when nothing was stored yet, the stored list goes from
    absent to present. *)
Theorem remove_undoes_add (t : string) (w : World) :
  fst (addAutoPattern t w) = true ->
  let w1 := run (addAutoPattern t) w in
  let w2 := run (removeAutoPattern t) w1 in
  templates_of (this w1) = templates_of (this w) ++ [t] /\
  fst (removeAutoPattern t w1) = true /\
  autoPatterns (this w2) = autoPatterns (this w) /\
  stored_autoPatterns (local w2) = Some (stored_of (autoPatterns (this w))) /\
  processedUrls (this w2) = ∅ /\ autoPatternCache (this w2) = ∅ /\
  (settings_saved w -> local w2 = local w) /\
  (stored_autoPatterns (local w) = None -> stored_autoPatterns (local w2) <> None).
Proof.
  intros Hadded w1 w2. subst w2 w1. unfold run.
  destruct (decide (t ∈ templates_of (this w))) as [Hin|Hfresh];
    [by rewrite addAutoPattern_duplicate in Hadded|].
  destruct (createAutoPattern t) as [p|] eqn:Hcreate;
    [|by rewrite addAutoPattern_rejected_by_engine in Hadded].
  rewrite (addAutoPattern_added t p w Hfresh Hcreate); simpl.
  apply createAutoPattern_template in Hcreate as [Ht _].
  assert (Hkept : List.filter (fun q => negb (String.eqb (template q) t))
                    (autoPatterns (this w) ++ [p]) = autoPatterns (this w)).
  { rewrite List.filter_app; simpl. rewrite Ht, String.eqb_refl; simpl.
    rewrite app_nil_r. by apply filter_keeps_all. }
  split; [unfold templates_of; simpl; by rewrite map_app, <- Ht|].
  rewrite removeAutoPattern_spec; simpl. rewrite Hkept.
  assert (Hlt : (length (autoPatterns (this w))
                 <? length (autoPatterns (this w) ++ [p]))%nat = true)
    by (apply Nat.ltb_lt; rewrite length_app; simpl; lia).
  rewrite Hlt. simpl. repeat split; try done.
  intros [Hauto Hen]. destruct w as [m [sd se sa] evs]; simpl in *.
  by rewrite Hauto, Hen.
Qed.

End Removal.

Section Additions.
Context `{Platform}.

Lemma includes_name_truthy (t : string) :
  JS.includes t ":name" = true -> JS.truthy t = true.
Proof. by destruct t. Qed.

(** X11. The listener answers an [addAutoPattern] message that passes
    its check with whether the template is in the list afterwards, not
    with what [addAutoPattern] returned: for a template that is already
    in the list the answer is [{ success: true }] although nothing was
    added and nothing changed.  When the answer is [{ success: false }]
    the world is as before. *)
Theorem listener_answers_with_membership (t : string) (w : World) :
  JS.includes t ":name" = true ->
  let w' := run (addAutoPattern t) w in
  (onMessage (AddAutoPattern t) w = (Success true, w') /\ t ∈ templates_of (this w')
   \/ onMessage (AddAutoPattern t) w = (Success false, w) /\ w' = w /\
      t ∉ templates_of (this w)) /\
  (t ∈ templates_of (this w) ->
   addAutoPattern t w = (false, w) /\
   onMessage (AddAutoPattern t) w = (Success true, w)).
Proof.
  intros Hname w'. subst w'. unfold run.
  assert (Hmsg : onMessage (AddAutoPattern t) w
                 = (Success (includes_template
                               (templates_of (this (addAutoPattern t w).2)) t),
                    (addAutoPattern t w).2)).
  { simpl. rewrite Hname, (includes_name_truthy t Hname); simpl.
    unfold bind. destruct (addAutoPattern t w) as [added w1]. done. }
  split.
  - rewrite Hmsg.
    destruct (includes_template (templates_of (this (addAutoPattern t w).2)) t)
      eqn:Hinc.
    + left. split; [done|]. by apply includes_template_elem.
    + right.
      assert (Hnot : t ∉ templates_of (this (addAutoPattern t w).2)).
      { intros Hin%includes_template_elem. congruence. }
      destruct (decide (t ∈ templates_of (this w))) as [Hin|Hfresh].
      { rewrite addAutoPattern_duplicate in Hnot; done. }
      destruct (createAutoPattern t) as [p|] eqn:Hcreate.
      * exfalso. apply Hnot.
        rewrite (addAutoPattern_added t p w Hfresh Hcreate); simpl.
        apply createAutoPattern_template in Hcreate as [Ht _].
        unfold templates_of; simpl. rewrite map_app, <- Ht.
        apply elem_of_app. right. apply list_elem_of_here.
      * by rewrite addAutoPattern_rejected_by_engine.
  - intros Hin. split; [by apply addAutoPattern_duplicate|].
    rewrite Hmsg, addAutoPattern_duplicate; [|done]. simpl.
    apply includes_template_elem in Hin. by rewrite Hin.
Qed.

(** X12. A template is added at the end of the list and the first
    template that matches decides: after a successful [addAutoPattern]
    every domain for which [matchAutoPattern] returned a name still gets
    that name. *)
Theorem added_template_has_lowest_priority (t domain name : string) (w : World) :
  fst (addAutoPattern t w) = true ->
  fst (matchAutoPattern domain w) = Some name ->
  let w' := run (addAutoPattern t) w in
  templates_of (this w') = templates_of (this w) ++ [t] /\
  fst (matchAutoPattern domain w') = Some name.
Proof.
  intros Hadded Hres w'. subst w'. unfold run.
  destruct (decide (t ∈ templates_of (this w))) as [Hin|Hfresh];
    [by rewrite addAutoPattern_duplicate in Hadded|].
  destruct (createAutoPattern t) as [p|] eqn:Hcreate;
    [|by rewrite addAutoPattern_rejected_by_engine in Hadded].
  rewrite matchAutoPattern_spec in *. simpl in Hres.
  rewrite (addAutoPattern_added t p w Hfresh Hcreate); simpl.
  apply createAutoPattern_template in Hcreate as [Ht _].
  split; [unfold templates_of; simpl; by rewrite map_app, <- Ht|].
  by apply auto_result_app.
Qed.

(** X13. A manual pattern is added at the end of the list: after
    [addPattern] a tab whose domain an earlier pattern matched is still
    grouped by the first such pattern, with that pattern's name and
    color, and the URL cache cannot say otherwise because the method has
    emptied it. *)
Theorem added_pattern_has_lowest_priority
    (src name : string) (c : option ColorEnum) (r : RegExp)
    (w : World) (tab : Tab) (id : Z) (url domain : string)
    (before after : list DomainPattern) (p : DomainPattern) :
  RegExp_new src = Some r ->
  eligible tab id url ->
  URL_hostname url = Some domain ->
  domainPatterns (this w) = before ++ p :: after ->
  Forall (fun q => RegExp_test (pattern q) domain = false) before ->
  RegExp_test (pattern p) domain = true ->
  let w' := run (addPattern src name c) w in
  domainPatterns (this w')
  = domainPatterns (this w) ++ [{| pattern := r; groupName := name; color := c |}] /\
  emitted (handleTabUpdate tab) w'
  = map (fun q => RegExpTest (pattern q) domain) (before ++ [p])
      ++ [AddTabToGroup id (groupName p) (color p)].
Proof.
  intros Hnew Hel Hparse Hsplit Hbefore Hp w'. subst w'. unfold run.
  rewrite (addPattern_added src name c r w Hnew); simpl.
  split; [done|].
  set (w' := {| this := _; local := _; events := events w |}).
  destruct (first_match_split before
              (after ++ [{| pattern := r; groupName := name; color := c |}])
              p domain Hbefore Hp) as [Hfirst Htested].
  assert (Hdps : domainPatterns (this w')
                 = before ++ p :: after
                     ++ [{| pattern := r; groupName := name; color := c |}]).
  { unfold w'; simpl. rewrite Hsplit. by rewrite <- app_assoc. }
  rewrite <- Hdps in Hfirst, Htested.
  apply emitted_log. unfold run.
  rewrite (handleTabUpdate_manual tab id url domain p w' Hel); try done.
  cbn [snd events]. unfold tests. by rewrite Htested.
Qed.

End Additions.

(* ===================================================================== *)
(** * Further properties: loading the settings *)
(* ===================================================================== *)

Section Loading.
Context `{Platform}.
Local Arguments mapM : simpl never.

Ltac open_load :=
  unfold refreshPatterns, loadPatternsFromStorage, storageCallback;
  unfold_monad.

Lemma loadPatternsFromStorage_keeps (w : World) :
  let w' := run loadPatternsFromStorage w in
  processedUrls (this w') = processedUrls (this w) /\
  autoPatternCache (this w') = autoPatternCache (this w) /\
  local w' = local w /\ events w' = events w.
Proof.
  open_load.
  destruct (createAutoPattern ":name.*") as [dflt|]; simpl; [|done].
  destruct (stored_domainPatterns (local w)) as [sd|]; simpl;
    [destruct (mapM loadDomainPattern sd); simpl|];
    try (destruct (stored_enableAutoPatterns (local w)); simpl);
    try (destruct (stored_autoPatterns (local w)) as [[|s stored]|]; simpl);
    try (destruct (mapM loadAutoPattern (s :: stored)); simpl);
    done.
Qed.

(** X14. Loading the settings, at a start or at a refresh, changes
    neither cache, nor the storage: a URL that was cached before
    [refreshPatterns] is answered from the cache afterwards, with the
    group it was cached with and without a look at the patterns that
    were loaded. *)
Theorem refreshPatterns_keeps_the_caches
    (w : World) (tab : Tab) (id : Z) (url cached : string) :
  let w' := run refreshPatterns w in
  processedUrls (this w') = processedUrls (this w) /\
  autoPatternCache (this w') = autoPatternCache (this w) /\
  local w' = local w /\
  events w' = events w /\
  (eligible tab id url ->
   processedUrls (this w) !! url = Some cached ->
   handleTabUpdate tab w'
   = (tt, log (if JS.truthy cached then [AddTabToGroup id cached None] else []) w')).
Proof.
  intros w'.
  destruct (loadPatternsFromStorage_keeps w) as (Hurls & Hdomains & Hlocal & Hevents).
  change (run loadPatternsFromStorage w) with w' in Hurls, Hdomains, Hlocal, Hevents.
  repeat split; try done.
  intros Hel Hhit. apply (handleTabUpdate_hit tab id url cached w' Hel).
  by rewrite Hurls.
Qed.

(** X15. When a stored manual pattern does not compile, the storage
    callback ends at it: the manager is left with no manual pattern and
    with the default auto-pattern alone, and the stored flag and the
    stored auto-patterns are not loaded.  The method itself ends
    normally. *)
Theorem load_stops_at_invalid_manual_pattern
    (w : World) (stored : list StoredPattern) (dflt : AutoPattern) :
  createAutoPattern ":name.*" = Some dflt ->
  stored_domainPatterns (local w) = Some stored ->
  Exists (fun p => RegExp_new (patternStr p) = None) stored ->
  loadPatternsFromStorage w
  = (Normal,
     with_this (set_autoPatterns [dflt] (set_domainPatterns [] (this w))) w).
Proof.
  intros Hdflt Hstored Hbad. open_load. rewrite Hdflt; simpl.
  rewrite Hstored; simpl.
  assert (Hnone : mapM loadDomainPattern stored = None).
  { apply mapM_None_2. eapply Exists_impl; [exact Hbad|].
    intros p Hp. unfold loadDomainPattern. by rewrite Hp. }
  by rewrite Hnone.
Qed.

(** X16. When the stored manual patterns load, the list of auto-patterns
    after loading is the default template [:name.*] alone in three
    cases: nothing is stored for the auto-patterns, the stored list is
    empty, or the regular expression text of a stored entry does not
    compile.  The stored flag is loaded in all three. *)
Theorem load_falls_back_to_the_default_template
    (w : World) (dflt : AutoPattern) :
  createAutoPattern ":name.*" = Some dflt ->
  (forall sd, stored_domainPatterns (local w) = Some sd ->
              is_Some (mapM loadDomainPattern sd)) ->
  (stored_autoPatterns (local w) = None \/
   stored_autoPatterns (local w) = Some [] \/
   exists stored, stored_autoPatterns (local w) = Some stored /\
                  Exists (fun p => RegExp_new (regexStr p) = None) stored) ->
  let w' := run loadPatternsFromStorage w in
  autoPatterns (this w') = [dflt] /\
  enableAutoPatterns (this w')
  = default (enableAutoPatterns (this w)) (stored_enableAutoPatterns (local w)).
Proof.
  intros Hdflt Hmanual Hcases w'. subst w'. open_load. rewrite Hdflt; simpl.
  assert (Hauto : match stored_autoPatterns (local w) with
                  | Some (s :: stored) => mapM loadAutoPattern (s :: stored) = None
                  | _ => True
                  end).
  { destruct Hcases as [->|[->|(stored & -> & Hbad)]]; try done.
    destruct stored as [|s stored]; [done|].
    apply mapM_None_2. eapply Exists_impl; [exact Hbad|].
    intros p Hp. unfold loadAutoPattern. by rewrite Hp. }
  destruct (stored_domainPatterns (local w)) as [sd|]; simpl.
  - destruct (Hmanual sd eq_refl) as [loaded ->]; simpl.
    destruct (stored_enableAutoPatterns (local w)); simpl;
      (destruct (stored_autoPatterns (local w)) as [[|s stored]|]; simpl;
       [done| |done]); by rewrite Hauto.
  - destruct (stored_enableAutoPatterns (local w)); simpl;
      (destruct (stored_autoPatterns (local w)) as [[|s stored]|]; simpl;
       [done| |done]); by rewrite Hauto.
Qed.

End Loading.

Section Restart.
Context `{Platform}.
Local Arguments mapM : simpl never.

Lemma loadDomainPattern_saved (patterns : list DomainPattern) :
  (forall r, RegExp_new (RegExp_source r) = Some r) ->
  mapM loadDomainPattern
    (map (fun p => {| patternStr := RegExp_source (pattern p);
                      stored_groupName := groupName p;
                      stored_color := color p |}) patterns)
  = Some patterns.
Proof.
  intros Hsource. apply mapM_Some_2.
  induction patterns as [|p rest IH]; simpl; constructor; [|done].
  unfold loadDomainPattern; simpl. rewrite Hsource. by destruct p.
Qed.

(** X17. What [savePatterns] and [saveSettings] store is what a new
    start of the service loads: when a [RegExp] built from the source of
    another is that regular expression and the default template
    compiles, the constructor run on the stored settings gives a manager
    with the same manual patterns, in the same order and with their
    names and colors, the same flag, the same auto-patterns if there
    were any, and two empty caches. *)
Theorem saved_settings_survive_a_restart (w : World) :
  (forall r, RegExp_new (RegExp_source r) = Some r) ->
  is_Some (createAutoPattern ":name.*") ->
  let saved := run (bind savePatterns (fun _ => saveSettings)) w in
  let w' := constructor (local saved) in
  domainPatterns (this w') = domainPatterns (this w) /\
  enableAutoPatterns (this w') = enableAutoPatterns (this w) /\
  (autoPatterns (this w) <> [] -> autoPatterns (this w') = autoPatterns (this w)) /\
  processedUrls (this w') = ∅ /\ autoPatternCache (this w') = ∅.
Proof.
  intros Hsource [dflt Hdflt] saved w'. subst w' saved.
  unfold constructor, run, loadPatternsFromStorage, storageCallback.
  unfold savePatterns, saveSettings. unfold_monad.
  rewrite Hdflt; simpl.
  rewrite (loadDomainPattern_saved (domainPatterns (this w)) Hsource); simpl.
  pose proof (loadAutoPattern_stored_of Hsource (autoPatterns (this w))) as Hload.
  unfold stored_of in Hload.
  destruct (autoPatterns (this w)) as [|p rest] eqn:Hauto; simpl.
  - done.
  - simpl in Hload. by rewrite Hload.
Qed.

End Restart.

(* ===================================================================== *)
(** * Further properties: the popup and the background service *)
(* ===================================================================== *)

Section PopupSync.
Context `{Platform}.
Local Arguments mapM : simpl never.

Lemma load_manual_patterns (w : World) (dflt : AutoPattern)
    (stored : list StoredPattern) (loaded : list DomainPattern) :
  createAutoPattern ":name.*" = Some dflt ->
  stored_domainPatterns (local w) = Some stored ->
  mapM loadDomainPattern stored = Some loaded ->
  domainPatterns (this (run loadPatternsFromStorage w)) = loaded.
Proof.
  intros Hdflt Hstored Hload.
  unfold loadPatternsFromStorage, storageCallback. unfold_monad.
  rewrite Hdflt; simpl. rewrite Hstored; simpl. rewrite Hload; simpl.
  destruct (stored_enableAutoPatterns (local w)); simpl;
    (destruct (stored_autoPatterns (local w)) as [[|s rest]|]; simpl; [done| |done]);
    by destruct (mapM loadAutoPattern (s :: rest)).
Qed.

Lemma mapM_splice1 (index : nat) (stored : list StoredPattern)
    (loaded : list DomainPattern) :
  mapM loadDomainPattern stored = Some loaded ->
  mapM loadDomainPattern (Popup.splice1 index stored)
  = Some (Popup.splice1 index loaded).
Proof.
  intros Hload%mapM_Some_1. apply mapM_Some_2. unfold Popup.splice1.
  apply Forall2_app; [by apply Forall2_take|by apply Forall2_drop].
Qed.

(** X18. [PopupManager.addPattern] sends the pattern to the background
    service only when both inputs are non-empty after trimming and the
    pattern compiles; the background service then adds it and answers
    with success, and the popup appends it to its own list and stores
    the list.  In every case the list of the popup, compiled, stays the
    list of manual patterns of the manager, and nothing changes unless
    the pattern was added. *)
Theorem popup_addPattern_keeps_in_sync
    (patternInput groupNameInput : string) (c : ColorEnum)
    (patterns : list StoredPattern) (w : World) :
  in_sync patterns w ->
  let result := Popup.addPattern patternInput groupNameInput c patterns w in
  let outcome := fst (fst result) in
  let patterns' := snd (fst result) in
  let w' := snd result in
  in_sync patterns' w' /\
  (outcome = Popup.Added
   <-> JS.truthy (Popup.trim patternInput) = true /\
       JS.truthy (Popup.trim groupNameInput) = true /\
       is_Some (RegExp_new (Popup.trim patternInput))) /\
  (outcome = Popup.Added ->
   patterns' = patterns ++ [{| patternStr := Popup.trim patternInput;
                               stored_groupName := Popup.trim groupNameInput;
                               stored_color := Some c |}] /\
   length (domainPatterns (this w')) = S (length (domainPatterns (this w))) /\
   processedUrls (this w') = ∅) /\
  (outcome <> Popup.Added -> patterns' = patterns /\ w' = w).
Proof.
  intros [Hcompiled Hstored] result outcome patterns' w'.
  destruct (JS.truthy (Popup.trim patternInput)) eqn:Hp.
  2:{ assert (Hres : result = (Popup.MissingInput, patterns, w))
        by (unfold result, Popup.addPattern; by rewrite Hp).
      subst w' patterns' outcome. rewrite Hres; simpl.
      repeat split; try done. intros (Hfalse & _). discriminate Hfalse. }
  destruct (JS.truthy (Popup.trim groupNameInput)) eqn:Hg.
  2:{ assert (Hres : result = (Popup.MissingInput, patterns, w))
        by (unfold result, Popup.addPattern; by rewrite Hp, Hg).
      subst w' patterns' outcome. rewrite Hres; simpl.
      repeat split; try done. intros (_ & Hfalse & _). discriminate Hfalse. }
  destruct (RegExp_new (Popup.trim patternInput)) as [r|] eqn:Hnew.
  2:{ assert (Hres : result = (Popup.InvalidRegex, patterns, w))
        by (unfold result, Popup.addPattern; by rewrite Hp, Hg, Hnew).
      subst w' patterns' outcome. rewrite Hres; simpl.
      repeat split; try done. intros (_ & _ & [r Hsome]). discriminate Hsome. }
  pose (entry := {| patternStr := Popup.trim patternInput;
                    stored_groupName := Popup.trim groupNameInput;
                    stored_color := Some c |}).
  pose (added := {| pattern := r; groupName := Popup.trim groupNameInput;
                    color := Some c |}).
  assert (Hres : result
                 = (Popup.Added, patterns ++ [entry],
                    {| this := set_processedUrls ∅
                                 (set_domainPatterns
                                    (domainPatterns (this w) ++ [added]) (this w));
                       local :=
                         {| stored_domainPatterns := Some (patterns ++ [entry]);
                            stored_enableAutoPatterns :=
                              stored_enableAutoPatterns (local w);
                            stored_autoPatterns := stored_autoPatterns (local w) |};
                       events := events w |})).
  { unfold result, Popup.addPattern. rewrite Hp, Hg, Hnew; simpl.
    unfold bind at 1. unfold bind at 1.
    by rewrite (addPattern_added _ _ (Some c) r w Hnew). }
  subst w' patterns' outcome. rewrite Hres; simpl.
  split; [|split; [|split]].
  - split; simpl; [|by left].
    apply mapM_Some_2. apply mapM_Some_1 in Hcompiled.
    apply Forall2_app; [done|]. constructor; [|constructor].
    unfold loadDomainPattern; simpl. by rewrite Hnew.
  - split; [|done]. intros _. repeat split. by eexists.
  - intros _. repeat split. rewrite length_app; simpl. lia.
  - done.
Qed.

(** X19. [PopupManager.removePattern] takes the entry at the index out
    of the list of the popup, stores the list and has the background
    service load it: when the default template compiles, the manual
    patterns of the manager are afterwards the former ones without the
    entry at that index, and the two lists are still the same.  The URL
    cache is not emptied by this: it is as it was. *)
Theorem popup_removePattern_keeps_in_sync
    (index : nat) (patterns : list StoredPattern) (w : World) :
  in_sync patterns w ->
  is_Some (createAutoPattern ":name.*") ->
  let result := Popup.removePattern index patterns w in
  let patterns' := fst result in
  let w' := snd result in
  patterns' = Popup.splice1 index patterns /\
  domainPatterns (this w') = Popup.splice1 index (domainPatterns (this w)) /\
  in_sync patterns' w' /\
  processedUrls (this w') = processedUrls (this w) /\
  autoPatternCache (this w') = autoPatternCache (this w).
Proof.
  intros [Hcompiled Hstored] [dflt Hdflt] result patterns' w'.
  pose (w1 := with_local
                {| stored_domainPatterns := Some (Popup.splice1 index patterns);
                   stored_enableAutoPatterns := stored_enableAutoPatterns (local w);
                   stored_autoPatterns := stored_autoPatterns (local w) |} w).
  assert (Hres : result = (Popup.splice1 index patterns, run refreshPatterns w1)).
  { unfold result, Popup.removePattern, Popup.savePatterns, run.
    unfold bind at 1. unfold bind at 1. simpl. unfold bind at 1. fold w1.
    by destruct (refreshPatterns w1) as [[|] w2]. }
  subst w' patterns'. rewrite Hres. cbn [fst snd].
  pose proof (mapM_splice1 index patterns _ Hcompiled) as Hspliced.
  assert (Hdps : domainPatterns (this (run refreshPatterns w1))
                 = Popup.splice1 index (domainPatterns (this w)))
    by (by apply (load_manual_patterns w1 dflt (Popup.splice1 index patterns))).
  destruct (loadPatternsFromStorage_keeps w1) as (Hurls & Hdomains & Hlocal & _).
  fold refreshPatterns in Hurls, Hdomains, Hlocal.
  repeat split; try done.
  - by rewrite Hdps.
  - left. by rewrite Hlocal.
Qed.

End PopupSync.

(* ===================================================================== *)
(** * Further properties: the template compiler *)
(* ===================================================================== *)

Section StringFacts.

Lemma append_cons (x : ascii) (a b : string) :
  String.append (String x a) b = String x (String.append a b).
Proof. reflexivity. Qed.

Lemma append_assoc (a b c : string) :
  String.append (String.append a b) c = String.append a (String.append b c).
Proof.
  induction a as [|x a IH]; [done|]. rewrite !append_cons. by rewrite IH.
Qed.

Lemma length_append (a b : string) :
  String.length (String.append a b) = (String.length a + String.length b)%nat.
Proof.
  induction a as [|x a IH]; [done|]. rewrite append_cons. simpl. by rewrite IH.
Qed.

Lemma replaceChar_append (c : ascii) (rep a b : string) :
  JS.replaceChar c rep (String.append a b)
  = String.append (JS.replaceChar c rep a) (JS.replaceChar c rep b).
Proof.
  induction a as [|x a IH]; [done|].
  rewrite append_cons. cbn [JS.replaceChar]. rewrite IH.
  destruct (Ascii.eqb x c); [|by rewrite append_cons].
  symmetry. apply append_assoc.
Qed.

Lemma prefix_head_differs (a b : ascii) (p s : string) :
  a <> b -> String.prefix (String a p) (String b s) = false.
Proof. intros Hne. simpl. by destruct (ascii_dec a b). Qed.

Lemma includes_append (a b p : string) :
  String.prefix p b = true -> JS.includes (String.append a b) p = true.
Proof.
  intros Hp. induction a as [|x a IH].
  - change (String.append "" b) with b. destruct b; cbn [JS.includes]; by rewrite Hp.
  - rewrite append_cons. cbn [JS.includes]. rewrite IH.
    match goal with |- (if ?c then _ else _) = _ => by destruct c end.
Qed.

End StringFacts.

Section CompilerText.
Import Template.
Local Arguments String.append : simpl nomatch.

Lemma token_includes (t : Token) (rest : string) :
  plain t = true ->
  JS.includes (String.append (render t) rest) ":name"
  = is_name t || JS.includes rest ":name".
Proof.
  destruct t as [| | |c]; intros Hplain; try reflexivity.
  - by destruct rest.
  - destruct c as [[] [] [] [] [] [] [] []]; try discriminate Hplain; reflexivity.
Qed.

Lemma spell_includes (tokens : list Token) :
  forallb plain tokens = true ->
  JS.includes (spell tokens) ":name" = existsb is_name tokens.
Proof.
  induction tokens as [|t rest IH]; [done|].
  intros [Ht Hrest]%andb_true_iff.
  change (spell (t :: rest)) with (String.append (render t) (spell rest)).
  rewrite token_includes, IH; done.
Qed.

Lemma token_text (t : Token) (rest : string) :
  plain t = true ->
  JS.replaceAll ":name" "([^.]+)"
    (String.append
       (JS.replaceChar "*" "[^.]+" (JS.replaceChar "." "\." (render t))) rest)
  = String.append (pattern_text t) (JS.replaceAll ":name" "([^.]+)" rest).
Proof.
  destruct t as [| | |c]; intros Hplain; try reflexivity.
  - by destruct rest.
  - destruct c as [[] [] [] [] [] [] [] []]; try discriminate Hplain; reflexivity.
Qed.

Lemma spell_text (tokens : list Token) :
  forallb plain tokens = true ->
  JS.replaceAll ":name" "([^.]+)"
    (JS.replaceChar "*" "[^.]+" (JS.replaceChar "." "\." (spell tokens)))
  = regex_text tokens.
Proof.
  induction tokens as [|t rest IH]; [done|].
  intros [Ht Hrest]%andb_true_iff.
  change (spell (t :: rest)) with (String.append (render t) (spell rest)).
  change (regex_text (t :: rest))
    with (String.append (pattern_text t) (regex_text rest)).
  rewrite !replaceChar_append, token_text, IH; done.
Qed.

End CompilerText.

Section CompilerOnAnyPlatform.
Context `{Platform}.
Import Template.

Lemma createAutoPattern_spelled (tokens : list Token) :
  forallb plain tokens = true ->
  createAutoPattern (spell tokens)
  = if existsb is_name tokens
    then (fun r => {| template := spell tokens; regex := r; namePosition := 1 |})
           <$> RegExp_new (String.append "^" (String.append (regex_text tokens) "$"))
    else None.
Proof.
  intros Hplain. unfold createAutoPattern.
  rewrite (spell_text tokens Hplain).
  pose proof (spell_includes tokens Hplain) as Hinc.
  destruct (existsb is_name tokens).
  - destruct (JS.indexOf (spell tokens) ":name" =? -1) eqn:Hidx.
    + apply Z.eqb_eq, indexOf_includes in Hidx. congruence.
    + by destruct (RegExp_new _).
  - apply indexOf_includes in Hinc. by rewrite Hinc.
Qed.

(** X20. For a template spelled with [:name], [*], dots and plain
    characters, [createAutoPattern] hands to [new RegExp] the text in
    which every dot is escaped, every [*] is [[^.]+] and every [:name]
    is [([^.]+)], between [^] and [$]; the dots that the replacements
    bring in are not escaped again.  It throws without calling the
    constructor exactly when no [:name] is spelled, and the pattern it
    returns carries the template as it was given and name position 1. *)
Theorem createAutoPattern_builds_the_anchored_text (tokens : list Token) :
  forallb plain tokens = true ->
  createAutoPattern (spell tokens)
  = if existsb is_name tokens
    then (fun r => {| template := spell tokens; regex := r; namePosition := 1 |})
           <$> RegExp_new (String.append "^" (String.append (regex_text tokens) "$"))
    else None.
Proof. apply createAutoPattern_spelled. Qed.

End CompilerOnAnyPlatform.

Section CompilerOnHost.
Import Template Host.
#[local] Existing Instance Host.platform.
Local Arguments String.append : simpl nomatch.

Lemma parse_token (t : Token) (fuel : nat) (rest : string) :
  plain t = true ->
  parse_atoms (S fuel) (String.append (pattern_text t) rest)
  = (fun r => (atom_of t :: fst r, snd r)) <$> parse_atoms fuel rest.
Proof.
  destruct t as [| | |c]; intros Hplain.
  - by destruct rest.
  - by destruct rest.
  - reflexivity.
  - destruct c as [[] [] [] [] [] [] [] []]; try discriminate Hplain; reflexivity.
Qed.

Lemma parse_tokens (tokens : list Token) (fuel : nat) :
  forallb plain tokens = true ->
  (length tokens < fuel)%nat ->
  parse_atoms fuel (String.append (regex_text tokens) "$")
  = Some (map atom_of tokens, true).
Proof.
  revert fuel; induction tokens as [|t rest IH]; intros fuel Hplain Hfuel.
  - destruct fuel; [simpl in Hfuel; lia|done].
  - apply andb_true_iff in Hplain as [Ht Hrest].
    destruct fuel as [|fuel]; [simpl in Hfuel; lia|].
    change (regex_text (t :: rest))
      with (String.append (pattern_text t) (regex_text rest)).
    rewrite append_assoc, (parse_token t fuel _ Ht), IH; [done|done|].
    simpl in Hfuel. lia.
Qed.

Lemma regex_text_length (tokens : list Token) :
  (length tokens <= String.length (regex_text tokens))%nat.
Proof.
  induction tokens as [|t rest IH]; [done|].
  change (regex_text (t :: rest))
    with (String.append (pattern_text t) (regex_text rest)).
  rewrite length_append. simpl.
  assert (1 <= String.length (pattern_text t))%nat by (destruct t; simpl; lia).
  lia.
Qed.

Lemma parse_regex_text (tokens : list Token) :
  forallb plain tokens = true ->
  parse (String.append "^" (String.append (regex_text tokens) "$"))
  = Some {| fromStart := true; atoms := map atom_of tokens; toEnd := true |}.
Proof.
  intros Hplain. unfold parse.
  change (String.append "^" (String.append (regex_text tokens) "$"))
    with (String "^" (String.append (regex_text tokens) "$")).
  cbv iota beta. rewrite parse_tokens; [done|done|].
  rewrite length_append. pose proof (regex_text_length tokens). simpl. lia.
Qed.

End CompilerOnHost.

Section Readings.
Import Template Host.
#[local] Existing Instance Host.platform.

Lemma append_nil_r (s : string) : String.append s "" = s.
Proof. induction s as [|c s IH]; [done|]. rewrite append_cons. by rewrite IH. Qed.

Lemma Matches_captures (ats : list Atom) (s : string) (caps : list string) :
  Matches ats s caps ->
  Forall (fun l => isLabel l = true) caps /\
  (existsb (fun a => match a with Label true => true | _ => false end) ats = true ->
   caps <> []).
Proof.
  induction 1 as [|c rest s caps _ [IH1 IH2]|c rest s caps Hlt _ [IH1 IH2]
                  |capture rest l s caps Hlabel _ [IH1 IH2]]; simpl.
  - done.
  - done.
  - done.
  - destruct capture; simpl; [|done]. split; [by constructor|done].
Qed.

Lemma readings_unique (tokens : list Token) (s : string) (caps caps' : list string) :
  delimited tokens = true ->
  Matches (map atom_of tokens) s caps ->
  Matches (map atom_of tokens) s caps' ->
  caps = caps'.
Proof.
  revert s caps caps'; induction tokens as [|t rest IH]; intros s caps caps' Hd H1 H2.
  - inversion H1; inversion H2; done.
  - simpl in Hd. apply andb_true_iff in Hd as [Hnext Hd].
    assert (Hlabel_case : forall capture,
              Matches (Label capture :: map atom_of rest) s caps ->
              Matches (Label capture :: map atom_of rest) s caps' ->
              match rest with [] => true | t' :: _ => is_dot t' end = true ->
              caps = caps').
    { intros capture M1 M2 Hfollow.
      inversion M1 as [| | |cp r1 l1 s1 c1 Hl1 Hr1 E1 E2 E3]; subst.
      inversion M2 as [| | |cp r2 l2 s2 c2 Hl2 Hr2 E1 E2 E3]; subst.
      destruct rest as [|t' rest'].
      - simpl in *. inversion Hr1; inversion Hr2; subst.
        rewrite !append_nil_r in E2. by subst.
      - destruct t'; try discriminate Hfollow. simpl in *.
        inversion Hr1 as [|c r s1' c1' Hr1'| |]; subst.
        inversion Hr2 as [|c r s2' c2' Hr2'| |]; subst.
        destruct (label_dot_unique _ _ _ _ Hl2 Hl1 E2) as [-> ->].
        assert (c1 = c2) by (eapply IH; [done|exact Hr1|exact Hr2]).
        by subst. }
    destruct t as [| | |c]; simpl in *.
    + by apply (Hlabel_case true).
    + by apply (Hlabel_case false).
    + inversion H1 as [|c1 r1 s1 cs1 M1| |]; subst.
      inversion H2 as [|c2 r2 s2 cs2 M2| |]; subst. by eapply IH.
    + inversion H1 as [|c1 r1 s1 cs1 M1| |]; subst.
      inversion H2 as [|c2 r2 s2 cs2 M2| |]; subst. by eapply IH.
Qed.

End Readings.

Section CompiledTemplates.
Import Template Host.
#[local] Existing Instance Host.platform.

Lemma captured_some_reading (p : AutoPattern) (ats : list Atom) (domain : string) :
  parse (source (regex p))
  = Some {| fromStart := true; atoms := ats; toEnd := true |} ->
  namePosition p = 1%nat ->
  existsb (fun a => match a with Label true => true | _ => false end) ats = true ->
  (forall name, captured p domain = Some name ->
                exists caps, Matches ats domain (name :: caps)) /\
  (forall caps, Matches ats domain caps ->
                exists name caps', captured p domain = Some name /\
                                   Matches ats domain (name :: caps')).
Proof.
  intros Hparse Hpos Hcap.
  rewrite (captured_anchored p ats domain Hparse Hpos).
  split.
  - intros name.
    destruct (matchAtoms ats true domain) as [[[|n caps] txt]|] eqn:Hm; try done.
    destruct (JS.truthy n); [|done]. intros [= ->].
    apply matchAtoms_sound in Hm as [Hm _]. by exists caps.
  - intros caps Hreading.
    destruct (matchAtoms_complete _ _ _ Hreading) as [[caps2 txt] Hm].
    rewrite Hm. apply matchAtoms_sound in Hm as [Hm _].
    destruct (Matches_captures _ _ _ Hm) as [Hlabels Hne].
    destruct caps2 as [|n caps2]; [by specialize (Hne Hcap)|].
    apply Forall_cons in Hlabels as [Hn _].
    unfold isLabel in Hn. apply andb_true_iff in Hn as [-> _].
    by exists n, caps2.
Qed.

Lemma capturing_atom (tokens : list Token) :
  existsb is_name tokens = true ->
  existsb (fun a => match a with Label true => true | _ => false end)
    (map atom_of tokens) = true.
Proof.
  induction tokens as [|t rest IH]; simpl; [done|].
  destruct t; simpl; done.
Qed.

(** X21. On the concrete platform a template spelled with [:name], [*],
    dots and plain characters, with at least one [:name], compiles.  The
    compiled pattern matches a domain exactly when the whole domain can
    be read token by token: each plain character and each dot as
    itself, each [*] and each [:name] as one non-empty piece without a
    dot.  The group name is the piece read for the first [:name], with
    its first character in upper case.  When every [*] and [:name] is
    followed by a dot or by the end, that piece is the same in every
    reading. *)
Theorem compiled_template_reads_labels (tokens : list Token) :
  forallb plain tokens = true ->
  existsb is_name tokens = true ->
  exists p,
    createAutoPattern (spell tokens) = Some p /\
    RegExp_source (regex p)
    = String.append "^" (String.append (regex_text tokens) "$") /\
    forall domain w,
      (is_Some (fst (matchAutoPattern_for [p] domain w))
       <-> exists caps, Matches (map atom_of tokens) domain caps) /\
      (forall g,
         fst (matchAutoPattern_for [p] domain w) = Some g ->
         exists name caps,
           Matches (map atom_of tokens) domain (name :: caps) /\
           g = JS.capitalize name) /\
      (delimited tokens = true ->
       forall name caps,
         Matches (map atom_of tokens) domain (name :: caps) ->
         fst (matchAutoPattern_for [p] domain w) = Some (JS.capitalize name)).
Proof.
  intros Hplain Hname.
  pose proof (parse_regex_text tokens Hplain) as Hparse.
  set (text := String.append "^" (String.append (regex_text tokens) "$")) in *.
  assert (Hok : wellFormed text = true) by (unfold wellFormed; by rewrite Hparse).
  pose (r := exist (fun src => wellFormed src = true) text Hok : regexp).
  assert (Hnew : new text = Some r).
  { unfold new. destruct (bool_dec (wellFormed text) true) as [ok|bad]; [|done].
    f_equal. unfold r. f_equal. apply UIP_dec, bool_dec. }
  pose (p := {| template := spell tokens; regex := r : RegExp; namePosition := 1 |}).
  exists p.
  split.
  { rewrite (createAutoPattern_spelled tokens Hplain), Hname. fold text.
    change (RegExp_new text) with (new text). by rewrite Hnew. }
  split; [done|].
  intros domain w.
  destruct (captured_some_reading p (map atom_of tokens) domain Hparse eq_refl
              (capturing_atom tokens Hname)) as [Hsound Hcomplete].
  rewrite matchAutoPattern_for_spec. cbn [fst].
  split; [|split].
  - split.
    + intros [g Hg]. apply auto_result_single in Hg as (name & Hcap & _).
      destruct (Hsound name Hcap) as [caps Hreading]. by eexists.
    + intros [caps Hreading].
      destruct (Hcomplete caps Hreading) as (name & caps' & Hcap & _).
      exists (JS.capitalize name). apply auto_result_single. by exists name.
  - intros g Hg. apply auto_result_single in Hg as (name & Hcap & ->).
    destruct (Hsound name Hcap) as [caps Hreading]. by exists name, caps.
  - intros Hdelim name caps Hreading.
    destruct (Hcomplete _ Hreading) as (name' & caps' & Hcap & Hreading').
    pose proof (readings_unique tokens domain _ _ Hdelim Hreading Hreading') as Heq.
    injection Heq as -> _.
    apply auto_result_single. by exists name'.
Qed.

End CompiledTemplates.

(* ===================================================================== *)
(** * The further properties at concrete inputs *)
(* ===================================================================== *)

Section FurtherOnHost.
#[local] Existing Instance Host.platform.

Lemma unparsable_tab_is_unparsable : unparsable Examples.unparsable_tab.
Proof. exists 5, "nonsense"%string. repeat split; try reflexivity. lia. Qed.

Lemma eligible_tab (id : Z) (url : string) :
  id <> 0 -> JS.truthy url = true ->
  JS.startsWith url "chrome://" = false -> JS.startsWith url "brave://" = false ->
  eligible (Examples.tab id url) id url.
Proof. intros. by repeat split. Qed.

Lemma groupAllExistingTabs_skips_unparsable_tab_witness :
  groupAllExistingTabs
    [Examples.unparsable_tab; Examples.tab 2 "https://github.com/"]
    Examples.with_github
  = groupAllExistingTabs [Examples.tab 2 "https://github.com/"] Examples.with_github.
Proof.
  apply (groupAllExistingTabs_skips_unparsable_tab [] _ Examples.unparsable_tab).
  apply unparsable_tab_is_unparsable.
Defined.

Lemma applyAutoPattern_stops_at_unparsable_tab_witness :
  applyAutoPatternToExistingTabs
    [Examples.tab 1 "https://a.com/"; Examples.unparsable_tab;
     Examples.tab 2 "https://b.com/"] Examples.fresh
  = applyAutoPatternToExistingTabs [Examples.tab 1 "https://a.com/"] Examples.fresh.
Proof.
  apply (applyAutoPattern_stops_at_unparsable_tab
           [Examples.tab 1 "https://a.com/"] [Examples.tab 2 "https://b.com/"]
           Examples.unparsable_tab Examples.fresh).
  apply unparsable_tab_is_unparsable.
Defined.

Lemma handleTabUpdate_caches_every_parsable_url_witness :
  handleTabUpdate Examples.unparsable_tab Examples.fresh = (tt, Examples.fresh).
Proof.
  apply (handleTabUpdate_caches_every_parsable_url
           Examples.unparsable_tab 5 "nonsense" Examples.fresh).
  - apply eligible_tab; [lia|reflexivity..].
  - reflexivity.
  - reflexivity.
Defined.

Lemma auto_match_is_reused_by_bulk_grouping_witness :
  let w1 := run (handleTabUpdate (Examples.tab 7 "https://example.com/"))
                Examples.fresh in
  autoPatternCache (this w1) !! "example.com"%string = Some "Example"%string /\
  groupAllExistingTabs [Examples.tab 8 "https://example.com/docs"] w1
  = (1%nat, log [AddTabToGroup 8 "Example" None] w1).
Proof.
  intros w1.
  destruct (auto_match_is_reused_by_bulk_grouping
              (Examples.tab 7 "https://example.com/")
              (Examples.tab 8 "https://example.com/docs")
              7 8 "https://example.com/" "https://example.com/docs"
              "example.com" "Example" Examples.fresh)
    as (_ & Hcache & Hbulk).
  - apply eligible_tab; [lia|reflexivity..].
  - reflexivity.
  - reflexivity.
  - constructor.
  - reflexivity.
  - reflexivity.
  - reflexivity.
  - repeat split; try reflexivity. lia.
  - split; [exact Hcache|exact Hbulk].
Defined.

Lemma disabled_auto_patterns_are_never_called_witness :
  let w := run (setAutoPatterns false) Examples.fresh in
  let tab := Examples.tab 7 "https://example.com/" in
  List.filter is_auto_call (emitted (handleTabUpdate tab) w) = [] /\
  this (run (groupAllExistingTabs [tab]) w) = this w /\
  applyAutoPatternToExistingTabs [tab] w = (tt, w).
Proof.
  intros w tab.
  destruct (disabled_auto_patterns_are_never_called tab [tab] w)
    as (Hone & _ & _ & Hbulk & Happly & _).
  - reflexivity.
  - split; [exact Hone|]. split; [exact Hbulk|exact Happly].
Defined.

Lemma remove_undoes_add_witness :
  let w := run (setAutoPatterns true) Examples.fresh in
  let w1 := run (addAutoPattern ":name.example.com") w in
  let w2 := run (removeAutoPattern ":name.example.com") w1 in
  templates_of (this w1) = [":name.*"; ":name.example.com"]%string /\
  autoPatterns (this w2) = autoPatterns (this w) /\
  local w2 = local w.
Proof.
  intros w w1 w2.
  destruct (remove_undoes_add ":name.example.com" w)
    as (Hadded & _ & Hremoved & _ & _ & _ & Hsaved & _).
  - reflexivity.
  - split; [exact Hadded|]. split; [exact Hremoved|].
    apply Hsaved. split; reflexivity.
Defined.

Lemma listener_answers_with_membership_witness :
  addAutoPattern ":name.*" Examples.fresh = (false, Examples.fresh) /\
  onMessage (AddAutoPattern ":name.*") Examples.fresh = (Success true, Examples.fresh).
Proof.
  destruct (listener_answers_with_membership ":name.*" Examples.fresh)
    as [_ Hdup].
  - reflexivity.
  - apply Hdup. vm_compute. apply list_elem_of_here.
Defined.

Lemma added_template_has_lowest_priority_witness :
  let w' := run (addAutoPattern ":name.com") Examples.fresh in
  templates_of (this w') = [":name.*"; ":name.com"]%string /\
  fst (matchAutoPattern "example.com" w') = Some "Example"%string.
Proof.
  apply (added_template_has_lowest_priority
           ":name.com" "example.com" "Example" Examples.fresh); reflexivity.
Defined.

Lemma added_pattern_has_lowest_priority_witness :
  emitted (handleTabUpdate (Examples.tab 7 "https://github.com/"))
          (run (addPattern "github" "Code" None) Examples.with_github)
  = [RegExpTest (pattern Examples.github) "github.com";
     AddTabToGroup 7 "GitHub" (Some "blue")].
Proof.
  destruct (@added_pattern_has_lowest_priority Host.platform
              "github" "Code" None (Examples.regexp_of "github" eq_refl)
              Examples.with_github (Examples.tab 7 "https://github.com/") 7
              "https://github.com/" "github.com" [] [] Examples.github)
    as [_ Hemitted].
  - reflexivity.
  - apply eligible_tab; [lia|reflexivity..].
  - reflexivity.
  - reflexivity.
  - constructor.
  - reflexivity.
  - exact Hemitted.
Defined.

Lemma refreshPatterns_keeps_the_caches_witness :
  let w := run (handleTabUpdate (Examples.tab 7 "https://example.com/"))
               Examples.fresh in
  let w' := run refreshPatterns w in
  handleTabUpdate (Examples.tab 8 "https://example.com/") w'
  = (tt, log [AddTabToGroup 8 "Example" None] w').
Proof.
  intros w w'.
  apply (refreshPatterns_keeps_the_caches
           w (Examples.tab 8 "https://example.com/") 8 "https://example.com/"
           "Example").
  - apply eligible_tab; [lia|reflexivity..].
  - reflexivity.
Defined.

Lemma load_stops_at_invalid_manual_pattern_witness :
  loadPatternsFromStorage (Examples.at_storage Examples.broken_manual)
  = (Normal,
     with_this (set_autoPatterns [Examples.default_auto]
                  (set_domainPatterns [] Examples.manager0))
       (Examples.at_storage Examples.broken_manual)).
Proof.
  eapply (load_stops_at_invalid_manual_pattern
            (Examples.at_storage Examples.broken_manual)).
  - reflexivity.
  - reflexivity.
  - constructor. reflexivity.
Defined.

Lemma load_falls_back_to_the_default_template_witness :
  let w' := run loadPatternsFromStorage (Examples.at_storage Examples.broken_auto) in
  autoPatterns (this w') = [Examples.default_auto] /\
  enableAutoPatterns (this w') = false.
Proof.
  apply (load_falls_back_to_the_default_template
           (Examples.at_storage Examples.broken_auto) Examples.default_auto).
  - reflexivity.
  - intros sd Hsd. discriminate Hsd.
  - right. right. eexists. split; [reflexivity|]. constructor. reflexivity.
Defined.

Lemma saved_settings_survive_a_restart_witness :
  let saved := run (bind savePatterns (fun _ => saveSettings)) Examples.with_github in
  let w' := constructor (local saved) in
  domainPatterns (this w') = [Examples.github] /\
  enableAutoPatterns (this w') = true /\
  autoPatterns (this w') = [Examples.default_auto].
Proof.
  intros saved w'.
  destruct (saved_settings_survive_a_restart Examples.with_github)
    as (Hd & He & Ha & _).
  - apply host_source_round_trip.
  - eexists. reflexivity.
  - split; [exact Hd|]. split; [exact He|]. apply Ha. discriminate.
Defined.

Lemma popup_addPattern_keeps_in_sync_witness :
  let result := Popup.addPattern "  github\.com " " GitHub" "blue" [] Examples.fresh in
  in_sync (snd (fst result)) (snd result) /\
  fst (fst result) = Popup.Added /\
  snd (fst result) = [Examples.github_entry].
Proof.
  intros result.
  destruct (popup_addPattern_keeps_in_sync
              "  github\.com " " GitHub" "blue" [] Examples.fresh)
    as (Hsync & Hiff & Hadded & _).
  - split; [reflexivity|]. right. split; reflexivity.
  - assert (Hout : fst (fst result) = Popup.Added).
    { apply Hiff. repeat split; try reflexivity. eexists. reflexivity. }
    split; [exact Hsync|]. split; [exact Hout|].
    apply (proj1 (Hadded Hout)).
Defined.

Lemma popup_removePattern_keeps_in_sync_witness :
  let result := Popup.removePattern 0 [Examples.github_entry] Examples.synced in
  fst result = [] /\
  domainPatterns (this (snd result)) = [] /\
  in_sync (fst result) (snd result).
Proof.
  intros result.
  destruct (popup_removePattern_keeps_in_sync 0 [Examples.github_entry] Examples.synced)
    as (Hp & Hd & Hsync & _).
  - split; [reflexivity|]. left. reflexivity.
  - eexists. reflexivity.
  - split; [exact Hp|]. split; [exact Hd|exact Hsync].
Defined.

Lemma createAutoPattern_builds_the_anchored_text_witness :
  createAutoPattern ":name.*.example.com"
  = Some Examples.name_any_example_com.
Proof.
  exact (createAutoPattern_builds_the_anchored_text
           Examples.name_any_example_com_tokens eq_refl).
Defined.

Lemma compiled_template_reads_labels_witness :
  exists p, createAutoPattern ":name.*.example.com" = Some p /\
    RegExp_source (regex p) = "^([^.]+)\.[^.]+\.example\.com$"%string /\
    fst (matchAutoPattern_for [p] "project.staging.example.com" Examples.fresh)
    = Some "Project"%string.
Proof.
  destruct (compiled_template_reads_labels
              Examples.name_any_example_com_tokens eq_refl eq_refl)
    as (p & Hp & Hsrc & Hreads).
  exists p. split; [exact Hp|]. split; [exact Hsrc|].
  destruct (Hreads "project.staging.example.com"%string Examples.fresh)
    as (_ & _ & Hdelim).
  apply (Hdelim eq_refl "project"%string []).
  eapply proj1, matchAtoms_sound. vm_compute. reflexivity.
Defined.

End FurtherOnHost.
